(** * convert_image_pair: a shallow embedding of tools/convert_image_pair.cpp

    The tool reads a manifest of image pairs, writes one label Datum per
    record into a first store and one image Datum per record into a second
    store, both under the key
    [format_int(line_id, 8) + "_" + path_a + "_" + path_b].

    The embedding follows the control flow of [main]: the calls the tool makes
    on its collaborators (gflags, glog, the database, the image reader) are
    recorded as a chronological list of events, and the ways [main] can stop
    (return, uncaught exception, failed CHECK, undefined behaviour) are the
    constructors of [Outcome]. *)

From Stdlib Require Import ZArith List Ascii Bool Lia Sorted.
From Stdlib Require String.
Import ListNotations String.StringSyntax.
Delimit Scope string_scope with string.

Local Open Scope Z_scope.

(** ** Strings *)

(** A [std::string] is its sequence of bytes. *)
Definition str := list ascii.

Definition lit (s : String.string) : str := String.list_ascii_of_string s.
Arguments lit s%_string_scope.

Definition NUL : ascii := Ascii.zero.
Definition LF : ascii := ascii_of_nat 10.

(** [operator<] on [std::string]: bytes are compared as unsigned values, a
    proper prefix is smaller. *)
Fixpoint str_lt (a b : str) : Prop :=
  match a, b with
  | _, [] => False
  | [], _ :: _ => True
  | x :: a', y :: b' =>
      (nat_of_ascii x < nat_of_ascii y)%nat \/ (x = y /\ str_lt a' b')
  end.

Fixpoint str_ltb (a b : str) : bool :=
  match a, b with
  | _, [] => false
  | [], _ :: _ => true
  | x :: a', y :: b' =>
      (nat_of_ascii x <? nat_of_ascii y)%nat || (Ascii.eqb x y && str_ltb a' b')
  end.

(** ** Decimal output of integers *)

Definition digit (n : Z) : ascii := ascii_of_nat (48 + Z.to_nat n).

(** The decimal digits of a non-negative number, most significant first.
    [fuel] bounds the number of digits. *)
Fixpoint dec_digits (fuel : nat) (n : Z) : str :=
  match fuel with
  | O => []
  | S f => if n <? 10 then [digit n]
           else dec_digits f (n / 10) ++ [digit (n mod 10)]
  end.

Definition decimal (n : Z) : str := dec_digits (S (Z.to_nat (Z.log2 n))) n.

Definition is_digit (c : ascii) : bool :=
  (48 <=? nat_of_ascii c)%nat && (nat_of_ascii c <=? 57)%nat.

Definition digit_val (c : ascii) : Z := Z.of_nat (nat_of_ascii c) - 48.

(** The number a sequence of digits denotes. *)
Fixpoint value (s : str) : Z :=
  match s with
  | [] => 0
  | c :: s' => digit_val c * 10 ^ Z.of_nat (length s') + value s'
  end.

(** [std::ostream << int]. *)
Definition print_int (n : Z) : str :=
  if n <? 0 then "-"%char :: decimal (- n) else decimal n.

(** Modelled from the spec: [caffe::format_int] (caffe/util/format.hpp) is not
    part of the sources at hand.  The specification calls it [zero_pad(i, 8)],
    "a fixed-width zero-padded decimal index", and names indices that need
    more than 8 digits an overflow of that width: the decimal output of [n]
    is padded on the left with ['0'] up to [width] characters and is never
    cut. *)
Definition format_int (n : Z) (width : nat) : str :=
  let d := print_int n in
  repeat "0"%char (width - length d) ++ d.

(** ** Records and keys *)

Section Records.

Variable double : Type.

(** [std::tuple<std::string, std::string, double>] *)
Definition value_type : Type := (str * str * double)%type.

Definition get0 (v : value_type) : str := fst (fst v).
Definition get1 (v : value_type) : str := snd (fst v).
Definition get2 (v : value_type) : double := snd v.

(** The expression both loops of [main] bind to [key_str]. *)
Definition key_str (line_id : Z) (v : value_type) : str :=
  format_int line_id 8 ++ lit "_" ++ get0 v ++ lit "_" ++ get1 v.

(** The keys of a record sequence, in final order. *)
Fixpoint keys_from (line_id : Z) (lines : list value_type) : list str :=
  match lines with
  | [] => []
  | v :: rest => key_str line_id v :: keys_from (line_id + 1) rest
  end.

End Records.

Arguments get0 {double} v.
Arguments get1 {double} v.
Arguments get2 {double} v.
Arguments key_str {double} line_id v.
Arguments keys_from {double} line_id lines.

(** ** The Datum message *)

Section DatumMessage.

Variable float : Type.

(** The fields of [caffe::Datum] the tool touches ([param] is the string
    field this fork adds to the message). *)
Record Datum : Type := mkDatum {
  channels : Z;
  height : Z;
  width : Z;
  data : str;
  label : Z;
  float_data : list float;
  encoded : bool;
  param : str
}.

(** A freshly constructed message. *)
Definition Datum_new : Datum := mkDatum 0 0 0 [] 0 [] false [].

Definition clear_data (d : Datum) : Datum :=
  mkDatum (channels d) (height d) (width d) [] (label d) (float_data d)
          (encoded d) (param d).
Definition clear_float_data (d : Datum) : Datum :=
  mkDatum (channels d) (height d) (width d) (data d) (label d) []
          (encoded d) (param d).
Definition set_encoded (d : Datum) (b : bool) : Datum :=
  mkDatum (channels d) (height d) (width d) (data d) (label d) (float_data d)
          b (param d).
Definition set_channels (d : Datum) (n : Z) : Datum :=
  mkDatum n (height d) (width d) (data d) (label d) (float_data d)
          (encoded d) (param d).
Definition set_height (d : Datum) (n : Z) : Datum :=
  mkDatum (channels d) n (width d) (data d) (label d) (float_data d)
          (encoded d) (param d).
Definition set_width (d : Datum) (n : Z) : Datum :=
  mkDatum (channels d) (height d) n (data d) (label d) (float_data d)
          (encoded d) (param d).
Definition add_float_data (d : Datum) (x : float) : Datum :=
  mkDatum (channels d) (height d) (width d) (data d) (label d)
          (float_data d ++ [x]) (encoded d) (param d).

(** [set_float_data(index, value)] overwrites an existing element. *)
Fixpoint set_nth (l : list float) (index : nat) (x : float) : list float :=
  match l, index with
  | [], _ => []
  | _ :: l', O => x :: l'
  | y :: l', S i => y :: set_nth l' i x
  end.
Definition set_float_data (d : Datum) (index : nat) (x : float) : Datum :=
  mkDatum (channels d) (height d) (width d) (data d) (label d)
          (set_nth (float_data d) index x) (encoded d) (param d).
Definition set_label (d : Datum) (n : Z) : Datum :=
  mkDatum (channels d) (height d) (width d) (data d) n (float_data d)
          (encoded d) (param d).
Definition set_param (d : Datum) (s : str) : Datum :=
  mkDatum (channels d) (height d) (width d) (data d) (label d) (float_data d)
          (encoded d) s.

End DatumMessage.

Arguments mkDatum {float}.
Arguments channels {float} d.
Arguments height {float} d.
Arguments width {float} d.
Arguments data {float} d.
Arguments label {float} d.
Arguments float_data {float} d.
Arguments encoded {float} d.
Arguments param {float} d.
Arguments Datum_new {float}.
Arguments clear_data {float} d.
Arguments clear_float_data {float} d.
Arguments set_encoded {float} d b.
Arguments set_channels {float} d n.
Arguments set_height {float} d n.
Arguments set_width {float} d n.
Arguments add_float_data {float} d x.
Arguments set_float_data {float} d index x.
Arguments set_label {float} d n.
Arguments set_param {float} d s.

(** ** Command line flags *)

Record Flags : Type := mkFlags {
  FLAGS_gray : bool;
  FLAGS_shuffle : bool;
  FLAGS_backend : str;
  FLAGS_resize_width : Z;
  FLAGS_resize_height : Z;
  FLAGS_check_size : bool;
  FLAGS_encoded : bool;
  FLAGS_encode_type : str
}.

(** The values given by the DEFINE_ lines. *)
Definition default_flags : Flags :=
  mkFlags false false (lit "lmdb") 0 0 false false [].

(** ** Events and outcomes *)

(** The two database handles of [main]: [db1] receives the label messages,
    [db] the image messages. *)
Inductive DbVar : Type := db1 | db.

Definition DbVar_eqb (a b : DbVar) : bool :=
  match a, b with
  | db1, db1 | db, db => true
  | _, _ => false
  end.

Inductive Severity : Type := INFO | ERROR.

Section Events.

Variable float : Type.

(** What [main] does to the world, in the order it does it.  The calls on
    the stores ([GetDB], [Open], [NewTransaction], [Put], [Commit]) are
    recorded as they are made: the stores are not part of this file, and a
    call that fails inside one (an unknown backend, a directory that cannot
    be created, a full disk: each a fatal [CHECK] of the store's own) is not
    modelled.  A trace is the run as far as the stores carry out what they
    are asked; a run in which a store call fails is a prefix of it. *)
Inductive Event : Type :=
| ShowUsage (argv0 : option str)
| Ifstream (path : option str)
| Cout (text : str)
| Log (sev : Severity) (text : str)
| GetDB (d : DbVar) (backend : str)
| Open (d : DbVar) (source : str)
| NewTransaction (d : DbVar)
| Put (d : DbVar) (key : str) (value : Datum float)
| Commit (d : DbVar).

(** How a computation ends.  [Undefined] is where the run leaves what the
    language defines (a [std::string] built from a null pointer, an [int]
    that overflows); what a given build does from there, an exception or a
    wrapped value, is not modelled. *)
Inductive Outcome (A : Type) : Type :=
| Returned (a : A)
| Thrown (what : str)
| CheckFailed (text : str)
| Undefined.

(** Events emitted so far, and how the computation ended. *)
Definition M (A : Type) : Type := (list Event * Outcome A)%type.

Definition ret {A} (a : A) : M A := ([], Returned A a).
Definition emit (e : Event) : M unit := ([e], Returned unit tt).
Definition throw {A} (what : str) : M A := ([], Thrown A what).
Definition check_failed {A} (text : str) : M A := ([], CheckFailed A text).
Definition undefined {A} : M A := ([], Undefined A).

Definition bind {A B} (m : M A) (k : A -> M B) : M B :=
  match m with
  | (evs, Returned _ a) => let (evs', o) := k a in (evs ++ evs', o)
  | (evs, Thrown _ what) => (evs, Thrown B what)
  | (evs, CheckFailed _ text) => (evs, CheckFailed B text)
  | (evs, Undefined _) => (evs, Undefined B)
  end.

End Events.

Arguments ShowUsage {float}.
Arguments Ifstream {float}.
Arguments Cout {float}.
Arguments Log {float}.
Arguments GetDB {float}.
Arguments Open {float}.
Arguments NewTransaction {float}.
Arguments Put {float}.
Arguments Commit {float}.
Arguments Returned {A}.
Arguments Thrown {A}.
Arguments CheckFailed {A}.
Arguments Undefined {A}.
Arguments ret {float A}.
Arguments emit {float}.
Arguments throw {float A}.
Arguments check_failed {float A}.
Arguments undefined {float A}.
Arguments bind {float A B}.

Notation "x <- m ;; k" := (bind m (fun x => k))
  (at level 61, m at next level, right associativity).
Notation "m ;; k" := (bind m (fun _ => k))
  (at level 61, right associativity).

(** ** Reading the manifest *)

(** The lines [std::getline] delivers from a stream with the given content:
    a line ends at ['\n'] (which is dropped) or at the end of the stream, and
    the call that extracts nothing at the end of the stream fails. *)
Fixpoint getlines (content : str) : list str :=
  match content with
  | [] => []
  | c :: rest =>
      if Ascii.eqb c LF then [] :: getlines rest
      else match getlines rest with
           | [] => [[c]]
           | line :: more => (c :: line) :: more
           end
  end.

(** [line.c_str()] as [split] reads it: the bytes before the first NUL. *)
Fixpoint c_str (line : str) : str :=
  match line with
  | [] => []
  | x :: rest => if Ascii.eqb x NUL then [] else x :: c_str rest
  end.

(** [split(str, c)].  [token] holds, reversed, the bytes between [begin] and
    [str]; [s] is what [str] points to.  The inner [while] advances over
    bytes that are neither [c] nor the terminator; the token is pushed, and
    the [do ... while] goes on when the byte at [str] was not the
    terminator. *)
Fixpoint split_from (token : str) (s : str) (c : ascii) : list str :=
  match s with
  | [] => [rev token]
  | x :: rest =>
      if Ascii.eqb x NUL then [rev token]
      else if Ascii.eqb x c then rev token :: split_from [] rest c
      else split_from (x :: token) rest c
  end.

Definition split (s : str) (c : ascii) : list str := split_from [] s c.

(** [vector::operator[]] on the token vector; the index is in range wherever
    [main] uses it. *)
Definition token (tokens : list str) (i : nat) : str := nth i tokens [].

Definition syntax_error (line_no : Z) : str :=
  lit "line " ++ print_int line_no ++ lit ": syntax error, can't find 3 tokens".

Definition INT_MAX : Z := 2147483647.
Definition INT_MIN : Z := -2147483648.

(** ** main *)

Section Main.

Variables double float : Type.

(** [std::stod]: [None] when it throws ([std::invalid_argument] or
    [std::out_of_range]). *)
Variable stod : str -> option double.

(** The conversion [(float)] and the literal [0] stored by
    [add_float_data(0)]. *)
Variable to_float : double -> float.
Variable float_zero : float.

(** [caffe::shuffle] (caffe/util/rng.hpp) with the generator of the run. *)
Variable shuffle : list (value_type double) -> list (value_type double).

(** Modelled from the spec: [ReadImagesToDatum] (caffe/util/io.hpp of this
    fork) is not part of the sources at hand.  The specification gives it as
    [BuildImagePayload(path_a, path_b, index, resize_h, resize_w, color) ->
    (ImagePayload, ok)]; [main] hands it the address of [datum_images], which
    lives across the iterations, so the message it finds there is an
    argument and the message it leaves there a result. *)
Variable ReadImagesToDatum :
  str * str -> Z -> Z -> Z -> bool -> Datum float -> bool * Datum float.

(** The content of the file a path names, [None] when it cannot be opened. *)
Variable fs : str -> option str.

Variable flags : Flags.

(** [argv] after [gflags::ParseCommandLineFlags] removed the flags; the entry
    after the last one is the null pointer. *)
Variable argv : list str.

Definition argc : Z := Z.of_nat (length argv).

Local Abbreviation value_type := (value_type double).
Local Abbreviation Datum := (Datum float).
Local Abbreviation M := (M float).

(** The loop over [std::getline]: [line_no] is declared before the loop and
    the loop body does not assign it. *)
Fixpoint read_lines (input : list str) (line_no : Z) (lines : list value_type)
  : M (list value_type) :=
  match input with
  | [] => ret lines
  | line :: rest =>
      let tokens := split (c_str line) " "%char in
      if negb (length tokens =? 3)%nat then throw (syntax_error line_no)
      else match stod (token tokens 2) with
           | None => throw (lit "stod")
           | Some x =>
               read_lines rest line_no
                 (lines ++ [(token tokens 0, token tokens 1, x)])
           end
  end.

(** An [ifstream] that failed to open delivers no line. *)
Definition infile (path : option str) : list str :=
  match path with
  | Some p => match fs p with
              | Some content => getlines content
              | None => []
              end
  | None => []
  end.

(** The message of the label loop. *)
Definition datum_label (line_id : Z) (v : value_type) : Datum :=
  let d := Datum_new in
  let d := clear_data d in
  let d := clear_float_data d in
  let d := set_encoded d false in
  let d := set_channels d 1 in
  let d := set_height d 1 in
  let d := set_width d 1 in
  let d := add_float_data d float_zero in
  let d := set_float_data d 0 (to_float (get2 v)) in
  let d := set_label d line_id in
  set_param d (key_str line_id v).

Definition processed (count : Z) : str :=
  lit "Processed " ++ print_int count ++ lit " files.".

(** [if (++count % 1000 == 0) { Commit; reset(NewTransaction); LOG }], given
    the incremented [count]. *)
Definition commit_batch (d : DbVar) (count : Z) : M unit :=
  if Z.rem count 1000 =? 0 then
    emit (Commit d) ;; emit (NewTransaction d) ;; emit (Log INFO (processed count))
  else ret tt.

(** [if (count % 1000 != 0) { Commit; LOG }] after a loop. *)
Definition commit_last (d : DbVar) (count : Z) : M unit :=
  if negb (Z.rem count 1000 =? 0) then
    emit (Commit d) ;; emit (Log INFO (processed count))
  else ret tt.

(** The body of the first [for] loop; the result is [count].
    [CHECK(datum_label.SerializeToString(&out))] is taken to succeed, and
    the value put is recorded as the message rather than as its bytes. *)
Definition label_body (line_id : Z) (v : value_type) (count : Z) : M Z :=
  let key := key_str line_id v in
  emit (Put db1 key (datum_label line_id v)) ;;
  let count := count + 1 in
  commit_batch db1 count ;;
  ret count.

(** The first [for] loop. *)
Fixpoint label_loop (lines : list value_type) (line_id count : Z) : M Z :=
  match lines with
  | [] => ret count
  | v :: rest =>
      count <- label_body line_id v count ;;
      label_loop rest (line_id + 1) count
  end.

(** The variables the second loop updates. *)
Record Locals : Type := mkLocals {
  count : Z;
  data_size : Z;
  data_size_initialized : bool;
  datum_images : Datum
}.

(** A product of [int]s: overflow is undefined behaviour, and the model
    follows the run no further; within [INT_MIN .. INT_MAX] the product is
    exact. *)
Definition int_mul (a b : Z) : M Z :=
  let p := a * b in
  if (INT_MIN <=? p) && (p <=? INT_MAX) then ret p else undefined.

(** The [if (check_size)] block.  [CHECK_EQ] compares a [size_t] (64 bits)
    with an [int], which is converted to [size_t] first. *)
Definition size_check (check_size : bool) (st : Locals) (d : Datum)
  : M (Z * bool) :=
  if check_size then
    if negb (data_size_initialized st) then
      ch <- int_mul (channels d) (height d) ;;
      chw <- int_mul ch (width d) ;;
      ret (chw, true)
    else
      let size := Z.of_nat (length (data d)) in
      if size =? data_size st mod 2 ^ 64 then
        ret (data_size st, data_size_initialized st)
      else
        check_failed (lit "Incorrect data field size " ++ print_int size)
  else ret (data_size st, data_size_initialized st).

(** The body of the second [for] loop; [continue] ends it early.
    [CHECK(datum_images.SerializeToString(&out))] is taken to succeed, as in
    the first loop. *)
Definition image_body (line_id : Z) (v : value_type) (st : Locals) : M Locals :=
  let key := key_str line_id v in
  let resize_height := Z.max 0 (FLAGS_resize_height flags) in
  let resize_width := Z.max 0 (FLAGS_resize_width flags) in
  let is_color := negb (FLAGS_gray flags) in
  let (status, d) :=
    ReadImagesToDatum (get0 v, get1 v) line_id resize_height resize_width
                      is_color (datum_images st) in
  if negb status then
    emit (Log ERROR (lit "Skeep image pair " ++ key ++ [LF])) ;;
    ret (mkLocals (count st) (data_size st) (data_size_initialized st) d)
  else
    sz <- size_check (FLAGS_check_size flags) st d ;;
    let d := set_label d line_id in
    let d := set_param d key in
    emit (Put db key d) ;;
    let count := count st + 1 in
    commit_batch db count ;;
    ret (mkLocals count (fst sz) (snd sz) d).

(** The second [for] loop. *)
Fixpoint image_loop (lines : list value_type) (line_id : Z) (st : Locals)
  : M Locals :=
  match lines with
  | [] => ret st
  | v :: rest =>
      st <- image_body line_id v st ;;
      image_loop rest (line_id + 1) st
  end.

(** [db->Open(argv[i], db::NEW)]: building the [std::string] argument from
    the null pointer is undefined behaviour. *)
Definition open_db (d : DbVar) (source : option str) : M unit :=
  match source with
  | Some s => emit (Open d s)
  | None => undefined
  end.

(** What follows the parse in [main].  Both loops count in [int]: a vector
    they cannot index makes [++line_id] overflow. *)
Definition convert (lines : list value_type) : M Z :=
  emit (Log INFO (lit "A total of " ++ print_int (Z.of_nat (length lines))
                  ++ lit " images.")) ;;
  (if negb (length (FLAGS_encode_type flags) =? 0)%nat
      && negb (FLAGS_encoded flags)
   then emit (Log INFO (lit "encode_type specified, assuming encoded=true."))
   else ret tt) ;;
  emit (Cout (lit "writing labels db" ++ [LF])) ;;
  emit (GetDB db1 (FLAGS_backend flags)) ;;
  open_db db1 (nth_error argv 3) ;;
  emit (NewTransaction db1) ;;
  (if INT_MAX <? Z.of_nat (length lines) then undefined else ret tt) ;;
  count1 <- label_loop lines 0 0 ;;
  commit_last db1 count1 ;;
  emit (GetDB db (FLAGS_backend flags)) ;;
  open_db db (nth_error argv 2) ;;
  emit (NewTransaction db) ;;
  emit (Cout (lit "writing images lmdb..." ++ [LF])) ;;
  st <- image_loop lines 0 (mkLocals 0 0 false Datum_new) ;;
  commit_last db (count st) ;;
  ret 0.

(** [main], built with USE_OPENCV. *)
Definition main : M Z :=
  if argc <? 3 then
    emit (ShowUsage (nth_error argv 0)) ;;
    ret 1
  else
    emit (Ifstream (nth_error argv 1)) ;;
    lines <- read_lines (infile (nth_error argv 1)) 0 [] ;;
    lines <- (if FLAGS_shuffle flags
              then emit (Log INFO (lit "Shuffling data")) ;; ret (shuffle lines)
              else ret lines) ;;
    convert lines.

End Main.

Arguments read_lines {double float} stod input line_no lines.
Arguments datum_label {double float} to_float float_zero line_id v.
Arguments commit_batch {float} d count.
Arguments commit_last {float} d count.
Arguments label_body {double float} to_float float_zero line_id v count.
Arguments label_loop {double float} to_float float_zero lines line_id count.
Arguments mkLocals {float}.
Arguments count {float} l.
Arguments data_size {float} l.
Arguments data_size_initialized {float} l.
Arguments datum_images {float} l.
Arguments int_mul {float} a b.
Arguments size_check {float} check_size st d.
Arguments image_body {double float} ReadImagesToDatum flags line_id v st.
Arguments image_loop {double float} ReadImagesToDatum flags lines line_id st.
Arguments open_db {float} d source.
Arguments convert {double float} to_float float_zero ReadImagesToDatum flags argv lines.
Arguments main {double float} stod to_float float_zero shuffle ReadImagesToDatum fs flags argv.

(** The pairs the first loop puts, for records numbered from [line_id]. *)
Fixpoint label_puts {double float : Type} (to_float : double -> float)
    (float_zero : float) (line_id : Z) (lines : list (value_type double))
  : list (str * Datum float) :=
  match lines with
  | [] => []
  | v :: rest =>
      (key_str line_id v, datum_label to_float float_zero line_id v)
      :: label_puts to_float float_zero (line_id + 1) rest
  end.

(** The events a loop over store [d] may emit. *)
Definition loop_event {float : Type} (d : DbVar) (e : Event float) : Prop :=
  match e with
  | Put d' _ _ | Commit d' | NewTransaction d' => d' = d
  | Log _ _ => True
  | _ => False
  end.

(** [main]'s locals before the second loop. *)
Definition initial_locals {float : Type} : Locals float :=
  mkLocals 0 0 false Datum_new.

(** The outcome with its result changed; a failure stays what it is. *)
Definition outcome_map {A B : Type} (f : A -> B) (o : Outcome A) : Outcome B :=
  match o with
  | Returned a => Returned (f a)
  | Thrown what => Thrown what
  | CheckFailed text => CheckFailed text
  | Undefined => Undefined
  end.

Section BodyCases.

Context {double float : Type}.
Context (ReadImagesToDatum :
           str * str -> Z -> Z -> Z -> bool -> Datum float -> bool * Datum float).
Context (flags : Flags).

(** The call of the image reader in the body of the second loop. *)
Definition read_images (v : value_type double) (line_id : Z)
    (st : Locals float) : bool * Datum float :=
  ReadImagesToDatum (get0 v, get1 v) line_id
    (Z.max 0 (FLAGS_resize_height flags)) (Z.max 0 (FLAGS_resize_width flags))
    (negb (FLAGS_gray flags)) (datum_images st).

(** The three ways through the body. *)
Inductive body_case (line_id : Z) (v : value_type double) (st : Locals float) : M float (Locals float) -> Prop :=
| body_skip d :
    read_images v line_id st = (false, d) ->
    body_case line_id v st
      ([Log ERROR (lit "Skeep image pair " ++ key_str line_id v ++ [LF])],
       Returned (mkLocals (count st) (data_size st) (data_size_initialized st) d))
| body_put d sz :
    read_images v line_id st = (true, d) ->
    size_check (FLAGS_check_size flags) st d = ([], Returned sz) ->
    body_case line_id v st
      (Put db (key_str line_id v)
           (set_param (set_label d line_id) (key_str line_id v))
         :: fst (@commit_batch float db (count st + 1)),
       Returned (mkLocals (count st + 1) (fst sz) (snd sz)
                          (set_param (set_label d line_id) (key_str line_id v))))
| body_stop d o :
    read_images v line_id st = (true, d) ->
    size_check (FLAGS_check_size flags) st d = ([], o) ->
    (forall sz, o <> Returned sz) ->
    body_case line_id v st
      ([], outcome_map (fun _ => st) o).

End BodyCases.

(** What [main] emits between the parse and the opening of the first store. *)
Definition preamble {float : Type} (flags : Flags) (n : nat) : list (Event float) :=
  Log INFO (lit "A total of " ++ print_int (Z.of_nat n) ++ lit " images.")
  :: (if negb (length (FLAGS_encode_type flags) =? 0)%nat
         && negb (FLAGS_encoded flags)
      then [Log INFO (lit "encode_type specified, assuming encoded=true.")]
      else [])
  ++ [Cout (lit "writing labels db" ++ [LF]); GetDB db1 (FLAGS_backend flags)].

(** The record sequence both loops run over. *)
Definition final_order {double : Type} (flags : Flags)
    (shuffle : list (value_type double) -> list (value_type double))
    (lines : list (value_type double)) : list (value_type double) :=
  if FLAGS_shuffle flags then shuffle lines else lines.

(** The paths an event names are the command line arguments at these
    positions: the manifest at 1, the store of [db] at 2, the store of [db1]
    at 3, the program at 0. *)
Definition names_its_argument {float : Type} (argv : list str)
    (e : Event float) : Prop :=
  match e with
  | ShowUsage a => a = nth_error argv 0
  | Ifstream p => p = nth_error argv 1
  | Open db1 s => nth_error argv 3 = Some s
  | Open db s => nth_error argv 2 = Some s
  | _ => True
  end.

(** [main] gets to the first loop: the label store could be opened and the
    records can be counted in an [int]. *)
Definition reaches_labels {A : Type} (argv : list str) (lines : list A) : bool :=
  match nth_error argv 3 with
  | Some _ => negb (INT_MAX <? Z.of_nat (length lines))
  | None => false
  end.

(** [main] gets to the second loop. *)
Definition reaches_images {A : Type} (argv : list str) (lines : list A) : bool :=
  reaches_labels argv lines &&
  match nth_error argv 2 with Some _ => true | None => false end.

(** ** A concrete world to run the tool in *)

Module Demo.

(** Sequences of decimal digits as numbers. *)
Definition stod (s : str) : option Z :=
  match s with
  | [] => None
  | _ => if forallb is_digit s then Some (value s) else None
  end.

(** An image reader: a pair whose first path is empty cannot be read; any
    other pair gives a one-row grey image as wide as the first path is long,
    with the bytes of the second path as pixels. *)
Definition ReadImagesToDatum (files : str * str) (index rh rw : Z)
    (is_color : bool) (d : Datum Z) : bool * Datum Z :=
  match fst files with
  | [] => (false, d)
  | _ => (true, mkDatum 1 1 (Z.of_nat (length (fst files))) (snd files) index
                        [] false (param d))
  end.

Definition manifest_path : str := lit "list.txt".

Definition fs (content : str) (path : str) : option str :=
  if list_eq_dec ascii_dec path manifest_path then Some content else None.

Definition run (flags : Flags) (content : str) (argv : list str) : M Z Z :=
  main stod (fun x => x) 0 (@rev _) ReadImagesToDatum (fs content) flags argv.

Definition args : list str :=
  [lit "convert_image_pair"; manifest_path; lit "images_db"; lit "labels_db"].

(** The command line with one store name missing. *)
Definition two_args : list str :=
  [lit "convert_image_pair"; manifest_path; lit "images_db"].

(** The command line with the name of a manifest that does not exist. *)
Definition missing_args : list str :=
  [lit "convert_image_pair"; lit "nofile.txt"; lit "images_db";
   lit "labels_db"].

(** A manifest with the given lines, each ended by a newline. *)
Definition manifest (file_lines : list str) : str :=
  flat_map (fun line => line ++ [LF]) file_lines.

(** Three records; the image of the third cannot be read. *)
Definition three_records : str :=
  manifest [lit "a b 1"; lit "cc d 2"; lit " e 3"].

Definition second_line_short : str := manifest [lit "a b 1"; lit "c d"].

Definition with_empty_line : str := manifest [lit "a b 1"; []; lit "c d 2"].

(** The first image cannot be read, the second sets the expected size to 2,
    the third has 2 bytes and the fourth 3. *)
Definition sizes_differ : str :=
  manifest [lit " x 2"; lit "ab c 1"; lit "de fg 3"; lit "hi jkl 4"].

Definition many (n : nat) : str := manifest (repeat (lit "a b 1") n).

Definition check_size_flags : Flags :=
  mkFlags false false (lit "lmdb") 0 0 true false [].

(** The second loop run on its own over a prefix of the records. *)
Definition loop_over (flags : Flags) (lines : list (value_type Z))
  : M Z (Locals Z) :=
  image_loop ReadImagesToDatum flags lines 0 initial_locals.

Definition locals_after (flags : Flags) (lines : list (value_type Z))
  : Locals Z :=
  match snd (loop_over flags lines) with
  | Returned st => st
  | _ => initial_locals
  end.

End Demo.

(** ** What a store sees *)

Section Stores.

Context {float : Type}.

(** A call on a transaction of one store. *)
Inductive Op : Type :=
| OpPut (key : str) (value : Datum float)
| OpCommit.

(** The calls one store's transactions receive, in order. *)
Fixpoint store_ops (d : DbVar) (tr : list (Event float)) : list Op :=
  match tr with
  | [] => []
  | Put d' key value :: tr' =>
      if DbVar_eqb d d' then OpPut key value :: store_ops d tr'
      else store_ops d tr'
  | Commit d' :: tr' =>
      if DbVar_eqb d d' then OpCommit :: store_ops d tr' else store_ops d tr'
  | _ :: tr' => store_ops d tr'
  end.

Fixpoint ops_puts (ops : list Op) : list (str * Datum float) :=
  match ops with
  | [] => []
  | OpPut key value :: ops' => (key, value) :: ops_puts ops'
  | OpCommit :: ops' => ops_puts ops'
  end.

Fixpoint ops_commits (ops : list Op) : nat :=
  match ops with
  | [] => O
  | OpPut _ _ :: ops' => ops_commits ops'
  | OpCommit :: ops' => S (ops_commits ops')
  end.

Definition puts (d : DbVar) (tr : list (Event float)) : list (str * Datum float) :=
  ops_puts (store_ops d tr).

Definition commits (d : DbVar) (tr : list (Event float)) : nat :=
  ops_commits (store_ops d tr).

(** The event is a call on a database or a transaction. *)
Definition touches_store (e : Event float) : bool :=
  match e with
  | GetDB _ _ | Open _ _ | NewTransaction _ | Put _ _ _ | Commit _ => true
  | _ => false
  end.

(** Modelled from the spec: the store behind [db::Transaction]
    (caffe/util/db.hpp) is not part of the sources at hand.  "Put stages a
    write in the current transaction.  No immediate durability guarantee";
    a commit makes the staged writes a persisted batch. *)
Record Store : Type := mkStore {
  staged : list (str * Datum float);
  committed : list (list (str * Datum float))
}.

Definition store_apply (s : Store) (op : Op) : Store :=
  match op with
  | OpPut key value => mkStore (staged s ++ [(key, value)]) (committed s)
  | OpCommit => mkStore [] (committed s ++ [staged s])
  end.

Definition replay (ops : list Op) (s : Store) : Store :=
  fold_left store_apply ops s.

Definition empty_store : Store := mkStore [] [].

(** The store a run leaves behind. *)
Definition store_after (d : DbVar) (tr : list (Event float)) : Store :=
  replay (store_ops d tr) empty_store.

(** The batching rule in the specification's words: a commit follows every
    1000th put, [issued] counting the puts made before. *)
Fixpoint in_batches (issued : Z) (kvs : list (str * Datum float)) : list Op :=
  match kvs with
  | [] => []
  | (key, value) :: rest =>
      OpPut key value ::
      (if (issued + 1) mod 1000 =? 0 then [OpCommit] else []) ++
      in_batches (issued + 1) rest
  end.

(** At the end of the input one more commit follows exactly when the number
    of puts is not a multiple of 1000. *)
Definition batched (kvs : list (str * Datum float)) : list Op :=
  in_batches 0 kvs ++
  (if Z.of_nat (length kvs) mod 1000 =? 0 then [] else [OpCommit]).

End Stores.

(** ** Shapes of manifest lines *)

(** The line does not split into three tokens. *)
Definition malformed (line : str) : Prop :=
  length (split (c_str line) " "%char) <> 3%nat.

Section ManifestShape.

Context {double : Type} (stod : str -> option double).

(** The line is one [main] accepts: three tokens, the third a number. *)
Definition well_formed (line : str) : Prop :=
  length (split (c_str line) " "%char) = 3%nat /\
  stod (token (split (c_str line) " "%char) 2) <> None.

(** The record [main] makes of a well-formed line. *)
Definition record_of (line : str) : option (value_type double) :=
  let tokens := split (c_str line) " "%char in
  match stod (token tokens 2) with
  | Some x => Some (token tokens 0, token tokens 1, x)
  | None => None
  end.

End ManifestShape.

(** ** Where a put goes *)

Section Destinations.

Context {float : Type}.

(** The puts of a run, each with the name under which the store it goes to
    was opened: [loc1] and [loc] are the names [db1] and [db] were last
    opened under ([None] before the first [Open]). *)
Fixpoint written (loc1 loc : option str) (tr : list (Event float))
  : list (option str * str * Datum float) :=
  match tr with
  | [] => []
  | e :: tr' =>
      match e with
      | Open d s =>
          match d with
          | db1 => written (Some s) loc tr'
          | db => written loc1 (Some s) tr'
          end
      | Put d key value =>
          (match d with db1 => loc1 | db => loc end, key, value)
          :: written loc1 loc tr'
      | _ => written loc1 loc tr'
      end
  end.

Definition writes (tr : list (Event float))
  : list (option str * str * Datum float) :=
  written None None tr.

End Destinations.

(** ** Tokens and lines put together again *)

(** The tokens with the separator between them. *)
Fixpoint join (c : ascii) (tokens : list str) : str :=
  match tokens with
  | [] => []
  | t :: rest =>
      match rest with
      | [] => t
      | _ :: _ => t ++ c :: join c rest
      end
  end.

(** A string without the separator and without the terminator. *)
Definition plain (c : ascii) (t : str) : Prop := ~ In c t /\ ~ In NUL t.

(** ** Counting and ordering events *)

Section EventCounts.

Context {float : Type}.

(** The records the second loop passed over: its [LOG(ERROR)] lines. *)
Fixpoint skips (tr : list (Event float)) : nat :=
  match tr with
  | [] => O
  | Log ERROR _ :: tr' => S (skips tr')
  | _ :: tr' => skips tr'
  end.

(** The store each call on a database or a transaction goes to, in the
    order of the calls. *)
Fixpoint stores_of (tr : list (Event float)) : list DbVar :=
  match tr with
  | [] => []
  | e :: tr' =>
      match e with
      | GetDB d _ | Open d _ | NewTransaction d | Put d _ _ | Commit d =>
          d :: stores_of tr'
      | _ => stores_of tr'
      end
  end.

End EventCounts.

(** ** Transactions that are replaced *)

Section Resets.

Context {float : Type}.

(** Modelled from the spec: the store behind [db::Transaction]
    (caffe/util/db.hpp) is not part of the sources at hand.  Here a
    transaction that is replaced by [NewTransaction] takes the puts staged in
    it along: only a commit persists them. *)
Definition event_apply (d : DbVar) (s : Store) (e : Event float) : Store :=
  match e with
  | Put d' key value =>
      if DbVar_eqb d d' then mkStore (staged s ++ [(key, value)]) (committed s)
      else s
  | Commit d' =>
      if DbVar_eqb d d' then mkStore [] (committed s ++ [staged s]) else s
  | NewTransaction d' =>
      if DbVar_eqb d d' then mkStore [] (committed s) else s
  | _ => s
  end.

Definition store_with_resets (d : DbVar) (tr : list (Event float)) : Store :=
  fold_left (event_apply d) tr empty_store.

(** Every [NewTransaction] on [d] comes when the transaction of [d] holds no
    staged put; [clean] says whether it holds none at the start. *)
Fixpoint resets_clean (d : DbVar) (clean : bool) (tr : list (Event float))
  : bool :=
  match tr with
  | [] => true
  | e :: tr' =>
      match e with
      | Put d' _ _ =>
          resets_clean d (if DbVar_eqb d d' then false else clean) tr'
      | Commit d' =>
          resets_clean d (if DbVar_eqb d d' then true else clean) tr'
      | NewTransaction d' =>
          (if DbVar_eqb d d' then clean else true) && resets_clean d clean tr'
      | _ => resets_clean d clean tr'
      end
  end.

End Resets.

(** * Properties *)

(** ** The definitions at work *)

Example getlines_ex :
  getlines (lit "a b 1" ++ [LF] ++ [LF] ++ lit "c d 2" ++ [LF] ++ lit "e")
  = [lit "a b 1"; []; lit "c d 2"; lit "e"].
Proof. reflexivity. Qed.

Example split_ex : split (lit "x.png y.png 0.5") " "%char
                   = [lit "x.png"; lit "y.png"; lit "0.5"].
Proof. reflexivity. Qed.

Example split_two_spaces : split (lit "a  b 1 ") " "%char
                           = [lit "a"; []; lit "b"; lit "1"; []].
Proof. reflexivity. Qed.

Example split_empty : split [] " "%char = [[]].
Proof. reflexivity. Qed.

Example format_int_ex : format_int 42 8 = lit "00000042".
Proof. reflexivity. Qed.

Example format_int_wide : format_int 123456789 8 = lit "123456789".
Proof. reflexivity. Qed.

Example key_str_ex :
  key_str 7 (lit "a.png", lit "b.png", tt) = lit "00000007_a.png_b.png".
Proof. reflexivity. Qed.

(** A run over three records, the last without a readable image. *)
Example run_three_records :
  Demo.run default_flags Demo.three_records Demo.args =
  ([Ifstream (Some (lit "list.txt"));
    Log INFO (lit "A total of 3 images.");
    Cout (lit "writing labels db" ++ [LF]);
    GetDB db1 (lit "lmdb");
    Open db1 (lit "labels_db");
    NewTransaction db1;
    Put db1 (lit "00000000_a_b")
        (mkDatum 1 1 1 [] 0 [1] false (lit "00000000_a_b"));
    Put db1 (lit "00000001_cc_d")
        (mkDatum 1 1 1 [] 1 [2] false (lit "00000001_cc_d"));
    Put db1 (lit "00000002__e")
        (mkDatum 1 1 1 [] 2 [3] false (lit "00000002__e"));
    Commit db1;
    Log INFO (lit "Processed 3 files.");
    GetDB db (lit "lmdb");
    Open db (lit "images_db");
    NewTransaction db;
    Cout (lit "writing images lmdb..." ++ [LF]);
    Put db (lit "00000000_a_b")
        (mkDatum 1 1 1 (lit "b") 0 [] false (lit "00000000_a_b"));
    Put db (lit "00000001_cc_d")
        (mkDatum 1 1 2 (lit "d") 1 [] false (lit "00000001_cc_d"));
    Log ERROR (lit "Skeep image pair 00000002__e" ++ [LF]);
    Commit db;
    Log INFO (lit "Processed 2 files.")],
   Returned 0).
Proof. vm_compute. reflexivity. Qed.

(** No positional argument: usage and exit status 1. *)
Example run_without_arguments :
  Demo.run default_flags Demo.three_records [lit "convert_image_pair"] =
  ([ShowUsage (Some (lit "convert_image_pair"))], Returned 1).
Proof. reflexivity. Qed.

(** 1500 records: a batch of 1000 and a batch of 500 in either store. *)
Example run_1500_records :
  let tr := fst (Demo.run default_flags (Demo.many 1500) Demo.args) in
  map (@length _) (committed (store_after db1 tr)) = [1000; 500]%nat /\
  map (@length _) (committed (store_after db tr)) = [1000; 500]%nat /\
  commits db1 tr = 2%nat /\ commits db tr = 2%nat.
Proof. vm_compute. repeat split; reflexivity. Qed.

(** ** Strings and decimal output *)

Lemma str_ltb_spec (a b : str) : str_ltb a b = true <-> str_lt a b.
Proof.
  revert b; induction a as [|x a IH]; intros [|y b]; simpl;
    try (split; [discriminate | tauto]); try tauto.
  rewrite orb_true_iff, andb_true_iff, Nat.ltb_lt, Ascii.eqb_eq, IH.
  tauto.
Qed.

Lemma str_lt_irrefl (a : str) : ~ str_lt a a.
Proof.
  induction a as [|x a IH]; simpl; [tauto|].
  intros [H | [_ H]]; [lia | auto].
Qed.

Lemma digit_is_digit (n : Z) :
  0 <= n < 10 -> is_digit (digit n) = true /\ digit_val (digit n) = n.
Proof.
  intros H. rewrite <- (Z2Nat.id n) by lia.
  assert (B : (Z.to_nat n < 10)%nat) by lia.
  revert B. generalize (Z.to_nat n) as k. intros k B.
  do 10 (destruct k as [|k]; [split; reflexivity|]).
  lia.
Qed.

Lemma digit_val_range (c : ascii) :
  is_digit c = true -> 0 <= digit_val c < 10.
Proof.
  unfold is_digit, digit_val.
  rewrite andb_true_iff, Nat.leb_le, Nat.leb_le. lia.
Qed.

Lemma value_app (a b : str) :
  value (a ++ b) = value a * 10 ^ Z.of_nat (length b) + value b.
Proof.
  induction a as [|c a IH]; simpl; [lia|].
  rewrite IH, length_app, Nat2Z.inj_add, Z.pow_add_r by lia. ring.
Qed.

Lemma value_bound (a : str) :
  forallb is_digit a = true -> 0 <= value a < 10 ^ Z.of_nat (length a).
Proof.
  induction a as [|c a IH]; simpl length; cbn [value forallb].
  - intros _. simpl. lia.
  - rewrite andb_true_iff. intros [Hc Ha].
    specialize (IH Ha). apply digit_val_range in Hc.
    rewrite Nat2Z.inj_succ, Z.pow_succ_r by lia. nia.
Qed.

Lemma value_repeat_zero (k : nat) : value (repeat "0"%char k) = 0.
Proof. induction k as [|k IH]; simpl; [reflexivity | rewrite IH; reflexivity]. Qed.

Lemma forallb_repeat_zero (k : nat) : forallb is_digit (repeat "0"%char k) = true.
Proof. induction k as [|k IH]; simpl; auto. Qed.

(** With enough fuel, [dec_digits] gives the digits of [n]. *)
Lemma dec_digits_spec (f : nat) :
  forall n, 0 <= n < 2 ^ Z.of_nat f ->
    forallb is_digit (dec_digits f n) = true /\ value (dec_digits f n) = n.
Proof.
  induction f as [|f IH]; intros n Hn.
  - simpl in *. split; [reflexivity | lia].
  - cbn [dec_digits]. destruct (n <? 10) eqn:E.
    + apply Z.ltb_lt in E. destruct (digit_is_digit n) as [H1 H2]; [lia|].
      cbn [forallb value length]. rewrite H1, H2. simpl. split; [reflexivity | lia].
    + apply Z.ltb_ge in E.
      rewrite Nat2Z.inj_succ, Z.pow_succ_r in Hn by lia.
      assert (Hq : 0 <= n / 10 < 2 ^ Z.of_nat f).
      { assert (0 < 2 ^ Z.of_nat f) by (apply Z.pow_pos_nonneg; lia).
        split; [apply Z.div_pos; lia|].
        apply Z.div_lt_upper_bound; lia. }
      destruct (IH _ Hq) as [H1 H2].
      destruct (digit_is_digit (n mod 10)) as [H3 H4];
        [apply Z.mod_pos_bound; lia|].
      rewrite forallb_app, value_app, H1, H2. cbn [forallb value length].
      rewrite H3, H4. split; [reflexivity|].
      pose proof (Z.div_mod n 10). simpl. lia.
Qed.

Lemma dec_digits_S (f : nat) (n : Z) :
  dec_digits (S f) n =
  if n <? 10 then [digit n] else dec_digits f (n / 10) ++ [digit (n mod 10)].
Proof. reflexivity. Qed.

Lemma dec_digits_length (f : nat) :
  forall n k, 0 <= n < 10 ^ Z.of_nat (S k) ->
    (1 <= length (dec_digits (S f) n) <= S k)%nat.
Proof.
  induction f as [|f IH]; intros n k Hn;
    rewrite dec_digits_S; destruct (n <? 10) eqn:E;
    try rewrite length_app; cbn [length app]; try lia.
  { simpl. lia. }
  apply Z.ltb_ge in E.
  destruct k as [|k]; [simpl in Hn; lia|].
  assert (Hq : 0 <= n / 10 < 10 ^ Z.of_nat (S k)).
  { split; [apply Z.div_pos; lia|].
    apply Z.div_lt_upper_bound; [lia|].
    rewrite <- Z.pow_succ_r, <- Nat2Z.inj_succ by lia. lia. }
  specialize (IH _ _ Hq). lia.
Qed.

Lemma decimal_spec (n : Z) :
  0 <= n -> forallb is_digit (decimal n) = true /\ value (decimal n) = n.
Proof.
  intros Hn. apply dec_digits_spec.
  rewrite Nat2Z.inj_succ, Z2Nat.id by apply Z.log2_nonneg.
  destruct (Z.eq_dec n 0) as [-> | Hz]; [simpl; lia|].
  pose proof (Z.log2_spec n). lia.
Qed.

Lemma print_int_nonneg (n : Z) : 0 <= n -> print_int n = decimal n.
Proof. intros H. unfold print_int. destruct (n <? 0) eqn:E; [lia | reflexivity]. Qed.

Lemma format_int_spec (n : Z) (w : nat) :
  0 <= n ->
  forallb is_digit (format_int n w) = true /\ value (format_int n w) = n.
Proof.
  intros Hn. unfold format_int. rewrite print_int_nonneg by assumption.
  destruct (decimal_spec n Hn) as [H1 H2].
  rewrite forallb_app, value_app, forallb_repeat_zero, value_repeat_zero, H1, H2.
  split; [reflexivity | lia].
Qed.

Lemma format_int_length (n : Z) (k : nat) :
  0 <= n < 10 ^ Z.of_nat (S k) -> length (format_int n (S k)) = S k.
Proof.
  intros Hn. unfold format_int. rewrite print_int_nonneg by lia.
  pose proof (dec_digits_length (Z.to_nat (Z.log2 n)) n k Hn) as H.
  fold (decimal n) in H. rewrite length_app, repeat_length. lia.
Qed.

(** Digit strings of one length compare as the numbers they denote, whatever
    follows them. *)
Lemma digits_lt_prefix (a : str) :
  forall b r1 r2,
    length a = length b ->
    forallb is_digit a = true -> forallb is_digit b = true ->
    value a < value b ->
    str_lt (a ++ r1) (b ++ r2).
Proof.
  induction a as [|x a IH]; intros [|y b] r1 r2 Hlen Ha Hb Hv;
    try discriminate; cbn [value] in Hv; try lia.
  cbn [forallb] in Ha, Hb. apply andb_true_iff in Ha, Hb.
  destruct Ha as [Hx Ha], Hb as [Hy Hb].
  injection Hlen as Hlen. rewrite Hlen in Hv.
  pose proof (value_bound a Ha) as Ba. pose proof (value_bound b Hb) as Bb.
  rewrite Hlen in Ba.
  pose proof (digit_val_range x Hx). pose proof (digit_val_range y Hy).
  cbn [app str_lt].
  destruct (Z.lt_trichotomy (digit_val x) (digit_val y)) as [L | [E | G]].
  - left. unfold digit_val in L. lia.
  - right. split.
    + unfold digit_val in E.
      rewrite <- (ascii_nat_embedding x), <- (ascii_nat_embedding y).
      f_equal. lia.
    + apply IH; auto. rewrite E in Hv. lia.
  - exfalso. nia.
Qed.

Lemma digits_exclude_underscore (l : str) :
  forallb is_digit l = true -> ~ In "_"%char l.
Proof.
  induction l as [|c l IH]; cbn [forallb In]; [tauto|].
  rewrite andb_true_iff. intros [Hc Hl] [E | H]; [|exact (IH Hl H)].
  subst c. discriminate Hc.
Qed.

Lemma app_sep_inj (c : ascii) (l1 : str) :
  forall l2 r1 r2,
    ~ In c l1 -> ~ In c l2 -> l1 ++ c :: r1 = l2 ++ c :: r2 -> l1 = l2.
Proof.
  induction l1 as [|x l1 IH]; intros [|y l2] r1 r2 N1 N2 E; cbn in *.
  - reflexivity.
  - injection E as E _. subst y. tauto.
  - injection E as E _. subst x. tauto.
  - injection E as E1 E2. subst y. f_equal. apply (IH l2 r1 r2); tauto.
Qed.

Section KeyFacts.

Context {double : Type}.
Implicit Types (v w : value_type double) (lines : list (value_type double)).

Lemma key_str_unfold (i : Z) v :
  key_str i v = format_int i 8 ++ "_"%char :: get0 v ++ "_"%char :: get1 v.
Proof. reflexivity. Qed.

(** The index can be read back from a key. *)
Lemma key_str_inj (i j : Z) v w :
  0 <= i -> 0 <= j -> key_str i v = key_str j w -> i = j.
Proof.
  intros Hi Hj E. rewrite !key_str_unfold in E.
  destruct (format_int_spec i 8 Hi) as [Di Vi].
  destruct (format_int_spec j 8 Hj) as [Dj Vj].
  apply app_sep_inj in E; auto using digits_exclude_underscore.
  congruence.
Qed.

Lemma key_str_lt (i j : Z) v w :
  0 <= i < j -> j < 10 ^ 8 -> str_lt (key_str i v) (key_str j w).
Proof.
  intros Hi Hj. rewrite !key_str_unfold.
  destruct (format_int_spec i 8) as [Di Vi]; [lia|].
  destruct (format_int_spec j 8) as [Dj Vj]; [lia|].
  apply digits_lt_prefix; auto; [|lia].
  rewrite !(format_int_length _ 7); [reflexivity | |];
    change (10 ^ Z.of_nat 8) with (10 ^ 8); lia.
Qed.

Lemma nth_error_keys_from lines :
  forall (start : Z) (i : nat),
    nth_error (keys_from start lines) i =
    option_map (key_str (start + Z.of_nat i)) (nth_error lines i).
Proof.
  induction lines as [|v lines IH]; intros start [|i]; cbn [keys_from nth_error option_map];
    try reflexivity.
  - rewrite Z.add_0_r. reflexivity.
  - rewrite IH. do 2 f_equal. lia.
Qed.

Lemma keys_from_length lines :
  forall start, length (keys_from start lines) = length lines.
Proof. induction lines as [|v lines IH]; intros; simpl; auto. Qed.

End KeyFacts.

(** ** Computations *)

Section MonadFacts.

Context {float : Type}.

Lemma fst_bind {A B} (m : M float A) (k : A -> M float B) :
  fst (bind m k) =
  fst m ++ match snd m with Returned a => fst (k a) | _ => [] end.
Proof.
  destruct m as [evs [a | what | text | ]]; cbn [bind fst snd];
    rewrite ?app_nil_r; try reflexivity.
  destruct (k a); reflexivity.
Qed.

Lemma snd_bind {A B} (m : M float A) (k : A -> M float B) :
  snd (bind m k) =
  match snd m with
  | Returned a => snd (k a)
  | Thrown what => Thrown what
  | CheckFailed text => CheckFailed text
  | Undefined => Undefined
  end.
Proof.
  destruct m as [evs [a | what | text | ]]; cbn [bind fst snd]; try reflexivity.
  destruct (k a); reflexivity.
Qed.

Lemma bind_returned {A B} (m : M float A) (k : A -> M float B) evs a :
  m = (evs, Returned a) ->
  bind m k = (evs ++ fst (k a), snd (k a)).
Proof. intros ->. cbn [bind]. destruct (k a); reflexivity. Qed.

Lemma bind_emit {B} (e : Event float) (k : unit -> M float B) :
  bind (emit e) k = (e :: fst (k tt), snd (k tt)).
Proof. unfold emit. cbn [bind]. destruct (k tt); reflexivity. Qed.

Lemma bind_ret {A B} (a : A) (k : A -> M float B) : bind (ret a) k = k a.
Proof. unfold ret. cbn [bind]. destruct (k a); reflexivity. Qed.

Lemma bind_assoc {A B C} (m : M float A) (k : A -> M float B)
      (h : B -> M float C) :
  bind (bind m k) h = bind m (fun a => bind (k a) h).
Proof.
  destruct m as [evs [a | what | text | ]]; cbn [bind]; try reflexivity.
  destruct (k a) as [evs' [b | what | text | ]]; cbn [bind]; try reflexivity.
  destruct (h b); rewrite app_assoc; reflexivity.
Qed.

Lemma bind_ext {A B} (m : M float A) (k k' : A -> M float B) :
  (forall a, k a = k' a) -> bind m k = bind m k'.
Proof.
  intros H. destruct m as [evs [a | what | text | ]]; cbn [bind]; try reflexivity.
  rewrite H. reflexivity.
Qed.

Lemma snd_bind_returned {A B} (m : M float A) (k : A -> M float B) b :
  snd (bind m k) = Returned b ->
  exists a, snd m = Returned a /\ snd (k a) = Returned b.
Proof.
  rewrite snd_bind. destruct (snd m) as [a | | | ]; try discriminate. eauto.
Qed.

Lemma surjective_M {A} (m : M float A) : m = (fst m, snd m).
Proof. destruct m; reflexivity. Qed.

End MonadFacts.

(** ** The manifest reader *)

Section ReaderFacts.

Context {double float : Type} (stod : str -> option double).

Local Abbreviation reader := (@read_lines double float stod).

Lemma read_lines_silent input :
  forall line_no lines, fst (reader input line_no lines) = [].
Proof.
  induction input as [|line rest IH]; intros; cbn [read_lines].
  - reflexivity.
  - destruct (negb _); [reflexivity|].
    destruct (stod _); [apply IH | reflexivity].
Qed.

(** A line without three tokens stops the reader with an exception. *)
Lemma read_lines_malformed input :
  Exists malformed input ->
  forall line_no lines,
    exists what, reader input line_no lines = ([], Thrown what).
Proof.
  induction 1 as [line rest Hbad | line rest _ IH]; intros;
    cbn [read_lines].
  - unfold malformed in Hbad. apply Nat.eqb_neq in Hbad. rewrite Hbad.
    cbn [negb]. eexists; reflexivity.
  - destruct (negb _); [eexists; reflexivity|].
    destruct (stod _); [apply IH | eexists; reflexivity].
Qed.

(** Whatever line is at fault, the exception names [line_no] as it was when
    the loop began. *)
Lemma read_lines_thrown input :
  forall line_no lines what,
    snd (reader input line_no lines) = Thrown what ->
    what = syntax_error line_no \/ what = lit "stod".
Proof.
  induction input as [|line rest IH]; intros line_no lines what;
    cbn [read_lines].
  - discriminate.
  - destruct (negb _); [cbn; intros [= <-]; auto|].
    destruct (stod _); [apply IH | cbn; intros [= <-]; auto].
Qed.

Lemma read_lines_well_formed input :
  Forall (well_formed stod) input ->
  forall line_no lines,
    exists records,
      reader input line_no lines = ([], Returned (lines ++ records)) /\
      map Some records = map (record_of stod) input.
Proof.
  induction 1 as [|line rest [H3 Hnum] _ IH]; intros;
    cbn [read_lines].
  - exists []. rewrite app_nil_r. split; reflexivity.
  - apply Nat.eqb_eq in H3. rewrite H3. cbn [negb].
    destruct (stod (token (split (c_str line) " "%char) 2)) as [x|] eqn:E;
      [|contradiction].
    destruct (IH line_no (lines ++ [(token (split (c_str line) " "%char) 0,
                                     token (split (c_str line) " "%char) 1, x)]))
      as [records [E1 E2]].
    eexists (_ :: records). rewrite E1, <- app_assoc. split; [reflexivity|].
    cbn [map]. unfold record_of at 1. rewrite E, E2. reflexivity.
Qed.

End ReaderFacts.

(** ** Stores and batches *)

Section StoreFacts.

Context {float : Type}.
Implicit Types (tr : list (Event float)) (ops : list (@Op float))
         (kvs : list (str * Datum float)).

Lemma store_ops_app d tr1 tr2 :
  store_ops d (tr1 ++ tr2) = store_ops d tr1 ++ store_ops d tr2.
Proof.
  induction tr1 as [|e tr1 IH]; [reflexivity|].
  destruct e; cbn [app store_ops]; try exact IH;
    destruct (DbVar_eqb d d0); cbn [app]; rewrite ?IH; reflexivity.
Qed.

Lemma ops_puts_app ops1 ops2 :
  ops_puts (ops1 ++ ops2) = ops_puts ops1 ++ ops_puts ops2.
Proof.
  induction ops1 as [|[k v|] ops1 IH]; cbn [app ops_puts]; rewrite ?IH; reflexivity.
Qed.

Lemma ops_commits_app ops1 ops2 :
  ops_commits (ops1 ++ ops2) = (ops_commits ops1 + ops_commits ops2)%nat.
Proof.
  induction ops1 as [|[k v|] ops1 IH]; cbn [app ops_commits]; rewrite ?IH; reflexivity.
Qed.

Lemma puts_app d tr1 tr2 : puts d (tr1 ++ tr2) = puts d tr1 ++ puts d tr2.
Proof. unfold puts. rewrite store_ops_app. apply ops_puts_app. Qed.

Lemma replay_app ops1 ops2 (s : Store) :
  replay (ops1 ++ ops2) s = replay ops2 (replay ops1 s).
Proof. apply fold_left_app. Qed.

Lemma in_puts_iff d tr key value :
  In (key, value) (puts d tr) <-> In (Put d key value) tr.
Proof.
  unfold puts. induction tr as [|e tr IH]; [simpl; tauto|].
  destruct e; cbn [store_ops In]; try (rewrite IH; intuition discriminate).
  - destruct (DbVar_eqb d d0) eqn:E; cbn [ops_puts In]; rewrite IH.
    + destruct d, d0; try discriminate; intuition congruence.
    + destruct d, d0; try discriminate; intuition congruence.
  - destruct (DbVar_eqb d d0); cbn [ops_puts In]; rewrite IH;
      intuition discriminate.
Qed.

Lemma in_batches_puts kvs : forall issued, ops_puts (in_batches issued kvs) = kvs.
Proof.
  induction kvs as [|[k v] kvs IH]; intros; cbn [in_batches ops_puts]; [reflexivity|].
  rewrite ops_puts_app, IH. destruct (_ =? 0); reflexivity.
Qed.

Lemma in_batches_app kvs1 kvs2 :
  forall issued,
    in_batches issued (kvs1 ++ kvs2) =
    in_batches issued kvs1 ++ in_batches (issued + Z.of_nat (length kvs1)) kvs2.
Proof.
  induction kvs1 as [|[k v] kvs1 IH]; intros; cbn [app in_batches length].
  - rewrite Z.add_0_r. reflexivity.
  - rewrite IH, <- !app_assoc. cbn [app]. do 4 f_equal. lia.
Qed.

(** The commits among the first puts: one for each multiple of 1000 passed. *)
Lemma in_batches_commits kvs :
  forall issued, 0 <= issued ->
    Z.of_nat (ops_commits (in_batches issued kvs)) =
    (issued + Z.of_nat (length kvs)) / 1000 - issued / 1000.
Proof.
  induction kvs as [|[k v] kvs IH]; intros issued Hi; cbn [in_batches ops_commits length].
  - rewrite Z.add_0_r. simpl. lia.
  - rewrite ops_commits_app, Nat2Z.inj_add, IH by lia.
    replace (issued + 1 + Z.of_nat (length kvs))
      with (issued + Z.of_nat (S (length kvs))) by lia.
    destruct ((issued + 1) mod 1000 =? 0) eqn:E;
      [apply Z.eqb_eq in E | apply Z.eqb_neq in E]; cbn [ops_commits];
      generalize dependent (issued + Z.of_nat (S (length kvs))); intros;
      Z.div_mod_to_equations; lia.
Qed.

Lemma batched_commits kvs :
  Z.of_nat (ops_commits (batched kvs)) = (Z.of_nat (length kvs) + 999) / 1000.
Proof.
  unfold batched. rewrite ops_commits_app, Nat2Z.inj_add, in_batches_commits by lia.
  rewrite Z.add_0_l.
  destruct (Z.of_nat (length kvs) mod 1000 =? 0) eqn:E;
    [apply Z.eqb_eq in E | apply Z.eqb_neq in E]; cbn [ops_commits];
    generalize dependent (Z.of_nat (length kvs)); intros;
    Z.div_mod_to_equations; lia.
Qed.

Lemma ops_puts_batched kvs : ops_puts (batched kvs) = kvs.
Proof.
  unfold batched. rewrite ops_puts_app, in_batches_puts.
  destruct (_ =? 0); cbn [ops_puts]; apply app_nil_r.
Qed.

(** What the store holds while the batches are written: full batches are
    persisted, the puts since the last commit are staged. *)
Lemma replay_in_batches kvs :
  forall issued (s : Store),
    0 <= issued ->
    Z.of_nat (length (staged s)) = issued mod 1000 ->
    Forall (fun batch => length batch = 1000%nat) (committed s) ->
    let s' := replay (in_batches issued kvs) s in
    concat (committed s') ++ staged s' = concat (committed s) ++ staged s ++ kvs /\
    Z.of_nat (length (staged s')) = (issued + Z.of_nat (length kvs)) mod 1000 /\
    Forall (fun batch => length batch = 1000%nat) (committed s').
Proof.
  induction kvs as [|[k v] kvs IH]; intros issued s Hi Hs Hc; cbn zeta.
  - cbn [in_batches replay fold_left length]. rewrite Z.add_0_r, app_nil_r. auto.
  - cbn [in_batches]. change (OpPut k v :: ?l) with ([OpPut k v] ++ l).
    rewrite !replay_app.
    set (s1 := replay [OpPut k v] s).
    assert (L1 : Z.of_nat (length (staged s1)) = issued mod 1000 + 1).
    { subst s1. cbn. rewrite length_app. cbn [length]. lia. }
    set (s2 := replay (if (issued + 1) mod 1000 =? 0 then [OpCommit] else []) s1).
    assert (H2 : concat (committed s2) ++ staged s2 =
                 concat (committed s) ++ staged s ++ [(k, v)] /\
                 Z.of_nat (length (staged s2)) = (issued + 1) mod 1000 /\
                 Forall (fun batch => length batch = 1000%nat) (committed s2)).
    { subst s2. destruct ((issued + 1) mod 1000 =? 0) eqn:E;
        [apply Z.eqb_eq in E | apply Z.eqb_neq in E];
        cbn [replay fold_left store_apply staged committed].
      - rewrite concat_app. cbn [concat]. rewrite !app_nil_r.
        split; [reflexivity|]. split; [cbn [length]; lia|].
        apply Forall_app. split; [assumption|]. constructor; [|constructor].
        revert L1 E. generalize (length (staged s1)). intros n L1 E.
        Z.div_mod_to_equations. lia.
      - split; [reflexivity|]. split; [|assumption].
        revert L1 E. generalize (length (staged s1)). intros n L1 E.
        Z.div_mod_to_equations. lia. }
    destruct H2 as [C2 [L2 F2]].
    destruct (IH (issued + 1) s2) as [C3 [L3 F3]]; try assumption; try lia.
    split; [|split]; try assumption.
    + rewrite C3, app_assoc, C2, <- !app_assoc. reflexivity.
    + rewrite L3. cbn [length]. f_equal. lia.
Qed.

(** After the closing commit nothing is left staged. *)
Lemma replay_batched kvs :
  let s := replay (batched kvs) empty_store in
  staged s = [] /\ concat (committed s) = kvs.
Proof.
  cbn zeta. unfold batched. rewrite replay_app.
  destruct (replay_in_batches kvs 0 empty_store) as [C [L F]];
    [lia | reflexivity | constructor |].
  cbn [empty_store committed staged concat app] in C. rewrite Z.add_0_l in L.
  destruct (Z.of_nat (length kvs) mod 1000 =? 0) eqn:E;
    [apply Z.eqb_eq in E | apply Z.eqb_neq in E];
    cbn [replay fold_left store_apply staged committed].
  - rewrite E in L. destruct (staged _); [|discriminate L].
    rewrite app_nil_r in C. auto.
  - rewrite concat_app. cbn [concat]. rewrite app_nil_r. auto.
Qed.

End StoreFacts.

(** ** The two loops *)

Section LoopFacts.

Context {double float : Type}.
Context (to_float : double -> float) (float_zero : float).
Context (ReadImagesToDatum :
           str * str -> Z -> Z -> Z -> bool -> Datum float -> bool * Datum float).
Context (flags : Flags).

Local Abbreviation label_body' := (label_body to_float float_zero).
Local Abbreviation label_loop' := (label_loop to_float float_zero).
Local Abbreviation label_puts' := (label_puts to_float float_zero).
Local Abbreviation datum_label' := (datum_label to_float float_zero).
Local Abbreviation image_body' := (image_body ReadImagesToDatum flags).
Local Abbreviation image_loop' := (image_loop ReadImagesToDatum flags).
Local Abbreviation read_images' := (read_images ReadImagesToDatum flags).
Local Abbreviation body_case' := (body_case ReadImagesToDatum flags).

Implicit Types (v : value_type double)
         (lines pre post : list (value_type double)) (st : Locals float).

Lemma commit_batch_eq (d : DbVar) (n : Z) :
  @commit_batch float d n =
  ((if Z.rem n 1000 =? 0
    then [Commit d; NewTransaction d; Log INFO (processed n)] else []),
   Returned tt).
Proof. unfold commit_batch. destruct (_ =? 0); reflexivity. Qed.

Lemma snd_commit_batch (d : DbVar) (n : Z) :
  snd (@commit_batch float d n) = Returned tt.
Proof. rewrite commit_batch_eq. reflexivity. Qed.

Lemma commit_last_eq (d : DbVar) (n : Z) :
  @commit_last float d n =
  ((if Z.rem n 1000 =? 0 then [] else [Commit d; Log INFO (processed n)]),
   Returned tt).
Proof. unfold commit_last. destruct (_ =? 0); reflexivity. Qed.

Lemma label_body_eq line_id v n :
  label_body' line_id v n =
  (Put db1 (key_str line_id v) (datum_label' line_id v)
     :: fst (@commit_batch float db1 (n + 1)),
   Returned (n + 1)).
Proof.
  unfold label_body. rewrite bind_emit, commit_batch_eq. cbn.
  rewrite app_nil_r. reflexivity.
Qed.

Lemma label_loop_returns lines :
  forall line_id n,
    snd (label_loop' lines line_id n) = Returned (n + Z.of_nat (length lines)).
Proof.
  induction lines as [|v lines IH]; intros; cbn [label_loop length].
  - cbn. f_equal. lia.
  - rewrite snd_bind, label_body_eq. cbn [snd]. rewrite IH. f_equal. lia.
Qed.

Lemma store_ops_commit_batch (d : DbVar) (n : Z) :
  0 <= n ->
  store_ops d (fst (@commit_batch float d n)) =
  if n mod 1000 =? 0 then [OpCommit] else [].
Proof.
  intros Hn. rewrite commit_batch_eq, Z.rem_mod_nonneg by lia. cbn [fst].
  destruct (_ =? 0); cbn [store_ops]; destruct d; reflexivity.
Qed.

Lemma label_loop_ops lines :
  forall line_id n, 0 <= n ->
    store_ops db1 (fst (label_loop' lines line_id n)) =
    in_batches n (label_puts' line_id lines).
Proof.
  induction lines as [|v lines IH]; intros line_id n Hn;
    cbn [label_loop label_puts in_batches]; [reflexivity|].
  rewrite fst_bind, label_body_eq. cbn [fst snd app store_ops DbVar_eqb].
  rewrite store_ops_app, store_ops_commit_batch, IH by lia. reflexivity.
Qed.

Lemma loop_event_commit_batch (d : DbVar) (n : Z) :
  Forall (loop_event d) (fst (@commit_batch float d n)).
Proof.
  rewrite commit_batch_eq. cbn [fst].
  destruct (_ =? 0); repeat constructor.
Qed.

Lemma label_loop_events lines :
  forall line_id n, Forall (loop_event db1) (fst (label_loop' lines line_id n)).
Proof.
  induction lines as [|v lines IH]; intros; cbn [label_loop]; [constructor|].
  rewrite fst_bind, label_body_eq. cbn [fst snd app].
  constructor; [reflexivity|].
  apply Forall_app. split; [apply loop_event_commit_batch | apply IH].
Qed.

Lemma label_puts_length lines :
  forall line_id, length (label_puts' line_id lines) = length lines.
Proof. induction lines as [|v lines IH]; intros; simpl; auto. Qed.

(** The keys of the label store are the keys of the record sequence. *)
Lemma label_puts_keys lines :
  forall line_id, map fst (label_puts' line_id lines) = keys_from line_id lines.
Proof.
  induction lines as [|v lines IH]; intros; cbn [label_puts keys_from map fst];
    [reflexivity | rewrite IH; reflexivity].
Qed.

Lemma in_label_puts lines :
  forall line_id key value,
    In (key, value) (label_puts' line_id lines) <->
    exists i v, nth_error lines i = Some v /\
                key = key_str (line_id + Z.of_nat i) v /\
                value = datum_label' (line_id + Z.of_nat i) v.
Proof.
  clear ReadImagesToDatum flags.
  induction lines as [|v lines IH]; intros line_id key value; cbn [label_puts In].
  - split; [tauto|]. intros [[|i] [w [H _]]]; discriminate H.
  - rewrite IH. split.
    + intros [E | [i [w [H1 [H2 H3]]]]].
      * injection E as <- <-. exists O, v. rewrite Z.add_0_r. auto.
      * exists (S i), w. cbn [nth_error].
        replace (line_id + Z.of_nat (S i)) with (line_id + 1 + Z.of_nat i) by lia.
        auto.
    + intros [[|i] [w [H1 [H2 H3]]]]; cbn [nth_error] in H1.
      * injection H1 as <-. rewrite Z.add_0_r in H2, H3. left. congruence.
      * right. exists i, w.
        replace (line_id + 1 + Z.of_nat i) with (line_id + Z.of_nat (S i)) by lia.
        auto.
Qed.

(** A loop over one store leaves the other alone. *)
Lemma store_ops_other (d d' : DbVar) (tr : list (Event float)) :
  Forall (loop_event d') tr -> d <> d' -> store_ops d tr = [].
Proof.
  induction 1 as [|e tr He _ IH]; intros Hd; [reflexivity|].
  destruct e; cbn [store_ops loop_event] in *; auto; try contradiction;
    subst d0; destruct d, d'; cbn [DbVar_eqb]; auto; contradiction.
Qed.

(** *** The body of the image loop *)

Lemma size_check_silent cs st (d : Datum float) : fst (size_check cs st d) = [].
Proof.
  unfold size_check, int_mul.
  destruct cs; [|reflexivity].
  destruct (negb _).
  - destruct (_ && _); [|reflexivity]. rewrite bind_ret.
    destruct (_ && _); reflexivity.
  - destruct (_ =? _); reflexivity.
Qed.

Lemma image_body_case line_id v st :
  body_case' line_id v st (image_body' line_id v st).
Proof.
  unfold image_body. fold (read_images' v line_id st).
  destruct (read_images' v line_id st) as [status d] eqn:R.
  destruct status; cbn [negb].
  - pose proof (size_check_silent (FLAGS_check_size flags) st d) as S.
    destruct (size_check (FLAGS_check_size flags) st d) as [evs o] eqn:C.
    cbn [fst] in S. subst evs.
    destruct o as [sz | what | text | ].
    + cbn [bind]. rewrite bind_emit, fst_bind, snd_bind, snd_commit_batch.
      cbn [ret fst snd app]. rewrite app_nil_r.
      apply (body_put _ _ _ _ _ d sz R C).
    + apply (body_stop _ _ _ _ _ d (Thrown what) R C). discriminate.
    + apply (body_stop _ _ _ _ _ d (CheckFailed text) R C). discriminate.
    + apply (body_stop _ _ _ _ _ d Undefined R C). discriminate.
  - rewrite bind_emit. cbn [ret fst snd]. apply (body_skip _ _ _ _ _ d R).
Qed.

Ltac body_cases line_id v st :=
  destruct (image_body_case line_id v st) as [d R | d sz R C | d o R C N];
  [ | | destruct o as [sz | what | text | ]; [exfalso; exact (N sz eq_refl) | | | ] ].

Lemma image_loop_app pre :
  forall post line_id st,
    image_loop' (pre ++ post) line_id st =
    bind (image_loop' pre line_id st)
         (fun st' => image_loop' post (line_id + Z.of_nat (length pre)) st').
Proof.
  induction pre as [|v pre IH]; intros; cbn [app image_loop length].
  - rewrite bind_ret, Z.add_0_r. reflexivity.
  - rewrite bind_assoc. apply bind_ext. intros st'.
    rewrite IH. apply bind_ext. intros st''. f_equal. lia.
Qed.

Lemma puts_commit_batch (d d' : DbVar) (n : Z) :
  puts d (fst (@commit_batch float d' n)) = [].
Proof.
  rewrite commit_batch_eq. cbn [fst]. unfold puts.
  destruct (_ =? 0); cbn [store_ops]; [|reflexivity].
  destruct (DbVar_eqb d d'); reflexivity.
Qed.

Lemma image_loop_events lines :
  forall line_id st, Forall (loop_event db) (fst (image_loop' lines line_id st)).
Proof.
  induction lines as [|v lines IH]; intros; cbn [image_loop]; [constructor|].
  rewrite fst_bind. apply Forall_app.
  body_cases line_id v st; cbn [fst snd]; split;
    try apply IH; repeat constructor.
  apply loop_event_commit_batch.
Qed.

(** Whatever the outcome, the image store has seen its puts in batches. *)
Lemma image_loop_ops lines :
  forall line_id st, 0 <= count st ->
    store_ops db (fst (image_loop' lines line_id st)) =
    in_batches (count st) (puts db (fst (image_loop' lines line_id st))).
Proof.
  induction lines as [|v lines IH]; intros line_id st Hc; cbn [image_loop];
    [reflexivity|].
  rewrite fst_bind.
  body_cases line_id v st; cbn [fst snd app]; try reflexivity.
  - change (Log ERROR ?t :: ?l) with ([@Log float ERROR t] ++ l).
    rewrite puts_app, store_ops_app, IH by assumption. reflexivity.
  - change (Put db ?k ?x :: ?l) with ([Put db k x] ++ l).
    rewrite !puts_app, puts_commit_batch, !store_ops_app,
      store_ops_commit_batch, IH by (cbn [count]; lia).
    cbn [app count in_batches puts store_ops ops_puts DbVar_eqb]. reflexivity.
Qed.

Lemma image_loop_count lines :
  forall line_id st st',
    snd (image_loop' lines line_id st) = Returned st' ->
    count st' =
    count st + Z.of_nat (length (puts db (fst (image_loop' lines line_id st)))).
Proof.
  induction lines as [|v lines IH]; intros line_id st st'; cbn [image_loop].
  - cbn. intros [= <-]. lia.
  - rewrite fst_bind, snd_bind.
    body_cases line_id v st; cbn [fst snd app]; try discriminate;
      intros H; apply IH in H; rewrite H; cbn [count].
    + reflexivity.
    + change (Put db ?k ?x :: ?l) with ([Put db k x] ++ l).
      rewrite !puts_app, puts_commit_batch, !length_app. cbn. lia.
Qed.

(** Every message in the image store sits under the key of the record it
    was built from and carries that record's index and that key. *)
Lemma image_loop_puts lines :
  forall line_id st key value,
    In (Put db key value) (fst (image_loop' lines line_id st)) ->
    exists i v, nth_error lines i = Some v /\
                key = key_str (line_id + Z.of_nat i) v /\
                label value = line_id + Z.of_nat i /\
                param value = key.
Proof.
  induction lines as [|v lines IH]; intros line_id st key value;
    cbn [image_loop]; [intros []|].
  rewrite fst_bind.
  assert (Next : forall st',
             In (Put db key value) (fst (image_loop' lines (line_id + 1) st')) ->
             exists i w, nth_error (v :: lines) i = Some w /\
                         key = key_str (line_id + Z.of_nat i) w /\
                         label value = line_id + Z.of_nat i /\
                         param value = key).
  { intros st' H. destruct (IH _ _ _ _ H) as [i [w [H1 [H2 [H3 H4]]]]].
    exists (S i), w. cbn [nth_error].
    replace (line_id + Z.of_nat (S i)) with (line_id + 1 + Z.of_nat i) by lia.
    auto. }
  body_cases line_id v st; cbn [fst snd app];
    rewrite ?app_nil_r; try (intros []; fail).
  - intros [H | H]; [discriminate H | eauto].
  - intros [H | H].
    + injection H as <- <-. exists O, v. rewrite Z.add_0_r. cbn. auto.
    + apply in_app_iff in H. destruct H as [H | H]; [|eauto].
      pose proof (loop_event_commit_batch db (count st + 1)) as F.
      rewrite Forall_forall in F. specialize (F _ H).
      rewrite commit_batch_eq in H. cbn [fst] in H.
      destruct (_ =? 0); cbn in H; intuition discriminate.
Qed.

End LoopFacts.


(** ** main *)

Section MainFacts.

Context {double float : Type}.
Context (stod : str -> option double).
Context (to_float : double -> float) (float_zero : float).
Context (shuffle : list (value_type double) -> list (value_type double)).
Context (ReadImagesToDatum :
           str * str -> Z -> Z -> Z -> bool -> Datum float -> bool * Datum float).
Context (fs : str -> option str).
Context (flags : Flags) (argv : list str).

Local Abbreviation label_loop' := (label_loop to_float float_zero).
Local Abbreviation label_puts' := (label_puts to_float float_zero).
Local Abbreviation datum_label' := (datum_label to_float float_zero).
Local Abbreviation image_loop' := (image_loop ReadImagesToDatum flags).
Local Abbreviation convert' :=
  (convert to_float float_zero ReadImagesToDatum flags argv).
Local Abbreviation main' :=
  (main stod to_float float_zero shuffle ReadImagesToDatum fs flags argv).

Implicit Types (v : value_type double)
         (lines pre post : list (value_type double)) (st : Locals float).

(** [convert] spelled out: where it stops, and what it has emitted by then. *)
Lemma convert_eq lines :
  convert' lines =
  match nth_error argv 3 with
  | None => (preamble flags (length lines), Undefined)
  | Some a3 =>
      let opened1 :=
        preamble flags (length lines) ++ [Open db1 a3; NewTransaction db1] in
      if INT_MAX <? Z.of_nat (length lines) then (opened1, Undefined)
      else
        let labelled :=
          opened1 ++ fst (label_loop' lines 0 0)
          ++ fst (@commit_last float db1 (Z.of_nat (length lines)))
          ++ [GetDB db (FLAGS_backend flags)] in
        match nth_error argv 2 with
        | None => (labelled, Undefined)
        | Some a2 =>
            let img := image_loop' lines 0 initial_locals in
            (labelled
             ++ [Open db a2; NewTransaction db;
                 Cout (lit "writing images lmdb..." ++ [LF])]
             ++ fst img
             ++ match snd img with
                | Returned st => fst (@commit_last float db (count st))
                | _ => []
                end,
             outcome_map (fun _ => 0) (snd img))
        end
  end.
Proof.
  pose proof (label_loop_returns to_float float_zero lines 0 0) as RL.
  rewrite Z.add_0_l in RL.
  unfold convert, preamble, initial_locals.
  destruct (label_loop' lines 0 0) as [levs lo]. cbn [snd fst] in *. subst lo.
  destruct (image_loop' lines 0 (mkLocals 0 0 false Datum_new))
    as [ievs [st | what | text | ]];
    cbn [bind emit ret undefined open_db fst snd outcome_map];
    repeat match goal with
      | |- context [match nth_error argv ?n with _ => _ end] =>
          destruct (nth_error argv n)
      | |- context [if ?c then _ else _] => destruct c
      | _ => progress unfold commit_last
      | _ => progress cbn [bind emit ret undefined open_db fst snd outcome_map]
      end;
    cbn [app]; rewrite ?app_nil_r; repeat (rewrite <- app_assoc; cbn [app]);
    reflexivity.
Qed.

Local Abbreviation parsed :=
  (@read_lines double float stod (infile fs (nth_error argv 1)) 0 []).

(** [main] spelled out. *)
Lemma main_eq :
  main' =
  if argc argv <? 3 then ([ShowUsage (nth_error argv 0)], Returned 1)
  else
    match snd parsed with
    | Returned lines0 =>
        let lines := final_order flags shuffle lines0 in
        (Ifstream (nth_error argv 1)
         :: (if FLAGS_shuffle flags then [Log INFO (lit "Shuffling data")] else [])
         ++ fst (convert' lines),
         snd (convert' lines))
    | Thrown what => ([Ifstream (nth_error argv 1)], Thrown what)
    | CheckFailed text => ([Ifstream (nth_error argv 1)], CheckFailed text)
    | Undefined => ([Ifstream (nth_error argv 1)], Undefined)
    end.
Proof.
  unfold main, final_order.
  destruct (argc argv <? 3); [reflexivity|].
  pose proof (read_lines_silent (float := float) stod
                (infile fs (nth_error argv 1)) 0 []) as S.
  destruct parsed as [evs o]. cbn [fst snd] in *. subst evs.
  destruct o as [lines0 | what | text | ]; cbn [bind emit fst snd app];
    try reflexivity.
  destruct (FLAGS_shuffle flags); cbn [bind emit ret fst snd app];
    destruct (convert' _); reflexivity.
Qed.

Lemma loop_event_names (d : DbVar) (tr : list (Event float)) :
  Forall (loop_event d) tr -> Forall (names_its_argument argv) tr.
Proof.
  apply Forall_impl. intros e. destruct e; cbn; tauto.
Qed.

Lemma commit_last_names (d : DbVar) (n : Z) :
  Forall (names_its_argument argv) (fst (@commit_last float d n)).
Proof.
  rewrite commit_last_eq. cbn [fst]. destruct (_ =? 0); repeat constructor.
Qed.

Lemma preamble_names (n : nat) :
  Forall (names_its_argument argv) (@preamble float flags n).
Proof.
  unfold preamble. destruct (_ && _); repeat constructor.
Qed.

Lemma convert_names lines :
  Forall (names_its_argument argv) (fst (convert' lines)).
Proof.
  rewrite convert_eq.
  destruct (nth_error argv 3) as [a3|] eqn:E3; cbv zeta;
    [|apply preamble_names].
  destruct (INT_MAX <? _); cbn [fst];
    [apply Forall_app; split; [apply preamble_names | repeat constructor; exact E3]|].
  destruct (nth_error argv 2) as [a2|] eqn:E2; cbn [fst];
    repeat (apply Forall_app; split);
    try apply preamble_names; try apply commit_last_names;
    try (apply loop_event_names with (d := db1); apply label_loop_events);
    try (apply loop_event_names with (d := db); apply image_loop_events);
    try (repeat constructor; assumption).
  destruct (snd _); try constructor. apply commit_last_names.
Qed.

Lemma main_names : Forall (names_its_argument argv) (fst main').
Proof.
  rewrite main_eq. destruct (argc argv <? 3); [repeat constructor|].
  destruct (snd parsed); cbn [fst]; try (repeat constructor; fail).
  constructor; [reflexivity|]. apply Forall_app. split.
  - destruct (FLAGS_shuffle flags); repeat constructor.
  - apply convert_names.
Qed.

(** C4: a manifest with a line that does not split into exactly three tokens
    makes the run end in an uncaught exception while the manifest is parsed;
    all the run has done by then is open the manifest, so no store has been
    opened and nothing has been put or committed. *)
Theorem malformed_manifest_is_fatal (path content : str) :
  3 <= argc argv ->
  nth_error argv 1 = Some path ->
  fs path = Some content ->
  Exists malformed (getlines content) ->
  exists what,
    main' = ([Ifstream (Some path)], Thrown what) /\
    Forall (fun e => touches_store e = false) (fst main').
Proof.
  intros Hargc Hpath Hfs Hbad.
  rewrite main_eq. apply Z.ltb_ge in Hargc. rewrite Hargc.
  rewrite Hpath. cbn [infile]. rewrite Hfs.
  destruct (read_lines_malformed (float := float) stod _ Hbad 0 []) as [what E].
  rewrite E. cbn [snd fst]. exists what. split; [reflexivity|].
  repeat constructor.
Qed.

(** *** What the stores see of a run *)

Lemma store_ops_commit_last (d : DbVar) (n : Z) :
  0 <= n ->
  store_ops d (fst (@commit_last float d n)) =
  if n mod 1000 =? 0 then [] else [OpCommit].
Proof.
  intros Hn. rewrite commit_last_eq, Z.rem_mod_nonneg by lia. cbn [fst].
  destruct (_ =? 0); cbn [store_ops]; destruct d; reflexivity.
Qed.

Lemma store_ops_commit_last_other (d d' : DbVar) (n : Z) :
  d <> d' -> store_ops d (fst (@commit_last float d' n)) = [].
Proof.
  intros Hd. rewrite commit_last_eq. cbn [fst].
  destruct (_ =? 0); cbn [store_ops]; [reflexivity|].
  destruct d, d'; try contradiction; reflexivity.
Qed.

Lemma store_ops_preamble (d : DbVar) (n : nat) :
  store_ops d (@preamble float flags n) = [].
Proof. unfold preamble. destruct (_ && _); reflexivity. Qed.

Lemma convert_ops_db1 lines :
  store_ops db1 (fst (convert' lines)) =
  if reaches_labels argv lines then batched (label_puts' 0 lines) else [].
Proof.
  rewrite convert_eq. unfold reaches_labels, batched.
  rewrite label_puts_length.
  destruct (nth_error argv 3) as [a3|]; cbv zeta;
    [|apply store_ops_preamble].
  destruct (INT_MAX <? _); cbn [fst negb].
  { rewrite store_ops_app, store_ops_preamble. reflexivity. }
  destruct (nth_error argv 2) as [a2|]; cbn [fst];
    rewrite ?store_ops_app, store_ops_preamble, label_loop_ops,
      store_ops_commit_last by lia;
    cbn [store_ops app]; rewrite ?app_nil_r; try reflexivity.
  rewrite (store_ops_other db1 db) by (apply image_loop_events || discriminate).
  destruct (snd _); rewrite ?store_ops_commit_last_other by discriminate;
    cbn [store_ops]; rewrite ?app_nil_r; reflexivity.
Qed.

Lemma convert_ops_db lines :
  store_ops db (fst (convert' lines)) =
  if reaches_images argv lines then
    let img := image_loop' lines 0 initial_locals in
    store_ops db (fst img) ++
    match snd img with
    | Returned st => if count st mod 1000 =? 0 then [] else [OpCommit]
    | _ => []
    end
  else [].
Proof.
  rewrite convert_eq. unfold reaches_images, reaches_labels.
  destruct (nth_error argv 3) as [a3|]; cbv zeta;
    [|apply store_ops_preamble].
  destruct (INT_MAX <? _); cbn [fst negb andb].
  { rewrite store_ops_app, store_ops_preamble. reflexivity. }
  destruct (nth_error argv 2) as [a2|]; cbn [fst];
    rewrite ?store_ops_app, store_ops_preamble,
      (store_ops_other db db1 (fst (label_loop' lines 0 0)))
      by (apply label_loop_events || discriminate);
    rewrite store_ops_commit_last_other by discriminate;
    cbn [store_ops app]; try reflexivity.
  destruct (snd (image_loop' lines 0 initial_locals)) as [st | | | ] eqn:E;
    cbn [store_ops]; try reflexivity.
  rewrite store_ops_commit_last; [reflexivity|].
  apply image_loop_count in E. cbn [count initial_locals] in E. lia.
Qed.

Lemma store_ops_main (d : DbVar) :
  store_ops d (fst main') =
  if argc argv <? 3 then []
  else match snd parsed with
       | Returned lines0 =>
           store_ops d (fst (convert' (final_order flags shuffle lines0)))
       | _ => []
       end.
Proof.
  rewrite main_eq. destruct (argc argv <? 3); [reflexivity|].
  destruct (snd parsed); cbn [fst store_ops]; try reflexivity.
  rewrite store_ops_app. destruct (FLAGS_shuffle flags); reflexivity.
Qed.

Lemma snd_main :
  snd main' =
  if argc argv <? 3 then Returned 1
  else match snd parsed with
       | Returned lines0 => snd (convert' (final_order flags shuffle lines0))
       | Thrown what => Thrown what
       | CheckFailed text => CheckFailed text
       | Undefined => Undefined
       end.
Proof.
  rewrite main_eq. destruct (argc argv <? 3); [reflexivity|].
  destruct (snd parsed); reflexivity.
Qed.

(** When [convert] returns, both loops ran and the second one returned. *)
Lemma convert_returned lines code :
  snd (convert' lines) = Returned code ->
  reaches_images argv lines = true /\
  exists st, snd (image_loop' lines 0 initial_locals) = Returned st.
Proof.
  rewrite convert_eq. unfold reaches_images, reaches_labels.
  destruct (nth_error argv 3) as [a3|]; cbv zeta; [|discriminate].
  destruct (INT_MAX <? _); [discriminate|].
  destruct (nth_error argv 2) as [a2|]; [|discriminate].
  cbn [snd]. destruct (snd (image_loop' lines 0 initial_locals)) as [st | | | ];
    try discriminate.
  intros _. split; [reflexivity | eauto].
Qed.

Lemma main_ops_batched (d : DbVar) (code : Z) :
  snd main' = Returned code ->
  exists kvs, store_ops d (fst main') = batched kvs.
Proof.
  rewrite snd_main, store_ops_main.
  destruct (argc argv <? 3); [intros _; exists []; reflexivity|].
  destruct (snd parsed) as [lines0 | | | ]; try discriminate.
  intros H. apply convert_returned in H. destruct H as [Hr [st Hst]].
  destruct d.
  - rewrite convert_ops_db1. unfold reaches_images in Hr.
    apply andb_true_iff in Hr. destruct Hr as [-> _]. eauto.
  - rewrite convert_ops_db, Hr. cbv zeta. rewrite Hst.
    exists (puts db (fst (image_loop' (final_order flags shuffle lines0) 0
                                      initial_locals))).
    rewrite image_loop_ops by (cbn; lia).
    apply image_loop_count in Hst. cbn [count initial_locals] in Hst.
    unfold batched. rewrite Hst, Z.add_0_l. reflexivity.
Qed.

(** C3: in a run that returns, each store sees a commit right after every
    1000th put and one more at the end exactly when the number of puts is
    not a multiple of 1000 (none for zero puts); so the number of commits is
    the number of puts divided by 1000 and rounded up, nothing stays staged,
    and 1500 puts make 2 commits. *)
Theorem commits_follow_batches (d : DbVar) (code : Z) :
  snd main' = Returned code ->
  let tr := fst main' in
  store_ops d tr = batched (puts d tr) /\
  Z.of_nat (commits d tr) = (Z.of_nat (length (puts d tr)) + 999) / 1000 /\
  staged (store_after d tr) = [] /\
  concat (committed (store_after d tr)) = puts d tr /\
  (length (puts d tr) = 1500%nat -> commits d tr = 2%nat).
Proof.
  intros H. cbv zeta. destruct (main_ops_batched d code H) as [kvs E].
  assert (P : puts d (fst main') = kvs)
    by (unfold puts; rewrite E; apply ops_puts_batched).
  unfold commits, store_after. rewrite P, E.
  pose proof (batched_commits kvs) as C.
  destruct (replay_batched kvs) as [S1 S2].
  repeat split; auto.
  intros L. rewrite L in C. change ((Z.of_nat 1500 + 999) / 1000) with 2 in C.
  lia.
Qed.

(** *** The pairs put into the stores *)

Lemma main_puts_db1 :
  puts db1 (fst main') =
  if argc argv <? 3 then []
  else match snd parsed with
       | Returned lines0 =>
           let lines := final_order flags shuffle lines0 in
           if reaches_labels argv lines then label_puts' 0 lines else []
       | _ => []
       end.
Proof.
  unfold puts. rewrite store_ops_main.
  destruct (argc argv <? 3); [reflexivity|].
  destruct (snd parsed); try reflexivity.
  rewrite convert_ops_db1. cbv zeta.
  destruct (reaches_labels argv _); [apply ops_puts_batched | reflexivity].
Qed.

Lemma main_puts_db :
  puts db (fst main') =
  if argc argv <? 3 then []
  else match snd parsed with
       | Returned lines0 =>
           let lines := final_order flags shuffle lines0 in
           if reaches_images argv lines
           then puts db (fst (image_loop' lines 0 initial_locals)) else []
       | _ => []
       end.
Proof.
  unfold puts. rewrite store_ops_main.
  destruct (argc argv <? 3); [reflexivity|].
  destruct (snd parsed); try reflexivity.
  rewrite convert_ops_db. cbv zeta.
  destruct (reaches_images argv _); [|reflexivity].
  rewrite ops_puts_app.
  destruct (snd (image_loop' _ 0 initial_locals)); try apply app_nil_r.
  destruct (_ =? 0); apply app_nil_r.
Qed.

(** A put into the image store comes from a record of the final order; the
    label store holds that record's label message under the same key. *)
Lemma image_put_has_label_put key value :
  In (Put db key value) (fst main') ->
  exists lines0 i v,
    snd parsed = Returned lines0 /\
    nth_error (final_order flags shuffle lines0) i = Some v /\
    key = key_str (Z.of_nat i) v /\
    label value = Z.of_nat i /\
    In (Put db1 key (datum_label' (Z.of_nat i) v)) (fst main').
Proof.
  intros H. apply in_puts_iff in H. rewrite main_puts_db in H.
  destruct (argc argv <? 3) eqn:A; [destruct H|].
  destruct (snd parsed) as [lines0 | | | ] eqn:P; try (destruct H; fail).
  cbv zeta in *. unfold reaches_images in H.
  destruct (reaches_labels argv _) eqn:RL; [|destruct H].
  destruct (nth_error argv 2); [|destruct H]. cbn [andb] in H.
  apply in_puts_iff in H.
  apply (image_loop_puts ReadImagesToDatum flags) in H.
  destruct H as [i [v [H1 [H2 [H3 H4]]]]]. rewrite Z.add_0_l in H2, H3.
  exists lines0, i, v.
  split; [reflexivity|]. split; [exact H1|]. split; [exact H2|].
  split; [exact H3|].
  apply in_puts_iff. rewrite main_puts_db1, A, P. cbv zeta. rewrite RL.
  rewrite in_label_puts. exists i, v. rewrite Z.add_0_l. subst key. auto.
Qed.

Lemma label_put_is_record key value :
  In (Put db1 key value) (fst main') ->
  exists lines0 i v,
    snd parsed = Returned lines0 /\
    nth_error (final_order flags shuffle lines0) i = Some v /\
    key = key_str (Z.of_nat i) v /\
    value = datum_label' (Z.of_nat i) v.
Proof.
  intros H. apply in_puts_iff in H. rewrite main_puts_db1 in H.
  destruct (argc argv <? 3); [destruct H|].
  destruct (snd parsed) as [lines0 | | | ]; try (destruct H; fail).
  cbv zeta in *. destruct (reaches_labels argv _); [|destruct H].
  rewrite in_label_puts in H. destruct H as [i [v [H1 [H2 H3]]]].
  rewrite Z.add_0_l in H2, H3. exists lines0, i, v. auto.
Qed.

(** A put into the image store is the message the image reader built for a
    record of the sequence, with that record's index and key set. *)
Lemma image_loop_built lines :
  forall line_id st key value,
    In (Put db key value) (fst (image_loop' lines line_id st)) ->
    exists i v st' d,
      nth_error lines i = Some v /\
      read_images ReadImagesToDatum flags v (line_id + Z.of_nat i) st'
      = (true, d) /\
      key = key_str (line_id + Z.of_nat i) v /\
      value = set_param (set_label d (line_id + Z.of_nat i)) key.
Proof.
  induction lines as [|v lines IH]; intros line_id st key value;
    cbn [image_loop]; [intros []|].
  rewrite fst_bind.
  assert (Next : forall st0,
             In (Put db key value) (fst (image_loop' lines (line_id + 1) st0)) ->
             exists i w st' d,
               nth_error (v :: lines) i = Some w /\
               read_images ReadImagesToDatum flags w (line_id + Z.of_nat i) st'
               = (true, d) /\
               key = key_str (line_id + Z.of_nat i) w /\
               value = set_param (set_label d (line_id + Z.of_nat i)) key).
  { intros st0 H. destruct (IH _ _ _ _ H) as [i [w [st' [d [H1 [H2 [H3 H4]]]]]]].
    exists (S i), w, st', d. cbn [nth_error].
    replace (line_id + Z.of_nat (S i)) with (line_id + 1 + Z.of_nat i) by lia.
    auto. }
  destruct (image_body_case ReadImagesToDatum flags line_id v st)
    as [d R | d sz R C | d o R C N]; cbn [fst snd app].
  - intros [H | H]; [discriminate H | eauto].
  - intros [H | H].
    + injection H as <- <-. exists O, v, st, d. rewrite Z.add_0_r. cbn. auto.
    + apply in_app_iff in H. destruct H as [H | H]; [|eauto].
      rewrite commit_batch_eq in H. cbn [fst] in H.
      destruct (_ =? 0); cbn in H; intuition discriminate.
  - destruct o as [sz | | | ]; [exfalso; exact (N sz eq_refl) | | | ];
      intros [].
Qed.

Lemma nth_error_label_puts lines :
  forall line_id i,
    nth_error (label_puts' line_id lines) i =
    option_map (fun v => (key_str (line_id + Z.of_nat i) v,
                          datum_label' (line_id + Z.of_nat i) v))
               (nth_error lines i).
Proof.
  induction lines as [|v lines IH]; intros line_id [|i];
    cbn [label_puts nth_error option_map]; try reflexivity.
  - rewrite Z.add_0_r. reflexivity.
  - rewrite IH.
    replace (line_id + 1 + Z.of_nat i) with (line_id + Z.of_nat (S i)) by lia.
    reflexivity.
Qed.

(** A put into the image store, traced back to its record. *)
Lemma image_put_of_record key value :
  In (Put db key value) (fst main') ->
  exists lines0 i v st d,
    snd parsed = Returned lines0 /\
    nth_error (final_order flags shuffle lines0) i = Some v /\
    read_images ReadImagesToDatum flags v (Z.of_nat i) st = (true, d) /\
    key = key_str (Z.of_nat i) v /\
    value = set_param (set_label d (Z.of_nat i)) key /\
    nth_error (puts db1 (fst main')) i
    = Some (key, datum_label' (Z.of_nat i) v) /\
    nth_error argv 2 <> None /\ nth_error argv 3 <> None.
Proof.
  intros H. apply in_puts_iff in H. rewrite main_puts_db in H.
  rewrite main_puts_db1.
  destruct (argc argv <? 3) eqn:A; [destruct H|].
  destruct (snd parsed) as [lines0 | | | ] eqn:P; try (destruct H; fail).
  cbv zeta in *. unfold reaches_images in H.
  destruct (reaches_labels argv _) eqn:RL; [|destruct H].
  destruct (nth_error argv 2) eqn:E2; [|destruct H]. cbn [andb] in H.
  apply in_puts_iff in H. apply image_loop_built in H.
  destruct H as [i [v [st [d [H1 [H2 [H3 H4]]]]]]].
  rewrite Z.add_0_l in H2, H3, H4.
  exists lines0, i, v, st, d.
  split; [reflexivity|]. split; [exact H1|]. split; [exact H2|].
  split; [exact H3|]. split; [exact H4|]. split.
  - rewrite nth_error_label_puts, H1, Z.add_0_l. cbn [option_map].
    rewrite H3. reflexivity.
  - split; [discriminate|]. unfold reaches_labels in RL.
    destruct (nth_error argv 3); [discriminate | discriminate RL].
Qed.

(** A put into the label store, traced back to its record. *)
Lemma label_put_of_record key value :
  In (Put db1 key value) (fst main') ->
  exists lines0 i v,
    snd parsed = Returned lines0 /\
    nth_error (final_order flags shuffle lines0) i = Some v /\
    key = key_str (Z.of_nat i) v /\
    value = datum_label' (Z.of_nat i) v /\
    nth_error (puts db1 (fst main')) i = Some (key, value) /\
    nth_error argv 3 <> None.
Proof.
  intros H. apply in_puts_iff in H. rewrite main_puts_db1 in H |- *.
  destruct (argc argv <? 3) eqn:A; [destruct H|].
  destruct (snd parsed) as [lines0 | | | ] eqn:P; try (destruct H; fail).
  cbv zeta in *. destruct (reaches_labels argv _) eqn:RL; [|destruct H].
  rewrite in_label_puts in H. destruct H as [i [v [H1 [H2 H3]]]].
  rewrite Z.add_0_l in H2, H3. exists lines0, i, v.
  split; [reflexivity|]. split; [exact H1|]. split; [exact H2|].
  split; [exact H3|]. split.
  - rewrite nth_error_label_puts, H1, Z.add_0_l. cbn [option_map].
    rewrite H2, H3. reflexivity.
  - unfold reaches_labels in RL.
    destruct (nth_error argv 3); [discriminate | discriminate RL].
Qed.

(** C1: every message in the image store is the message built for one
    record of the final order: the record at the position [i] the message
    carries, with the paths [path_a] and [path_b].  Its key is
    [format_int(i, 8) + "_" + path_a + "_" + path_b], and the put number [i]
    into the label store is that record's label message under the very same
    key.  Every label message sits under the key made in this way of its
    own record, so a label message and an image message of one record have
    one key. *)
Theorem label_and_image_keys_agree :
  (forall key value,
      In (Put db key value) (fst main') ->
      exists lines0 i path_a path_b scalar st d,
        snd parsed = Returned lines0 /\
        nth_error (final_order flags shuffle lines0) i
        = Some (path_a, path_b, scalar) /\
        read_images ReadImagesToDatum flags (path_a, path_b, scalar)
                    (Z.of_nat i) st = (true, d) /\
        value = set_param (set_label d (Z.of_nat i)) key /\
        label value = Z.of_nat i /\
        key = format_int (Z.of_nat i) 8 ++ lit "_" ++ path_a
              ++ lit "_" ++ path_b /\
        nth_error (puts db1 (fst main')) i
        = Some (key, datum_label' (Z.of_nat i) (path_a, path_b, scalar)) /\
        float_data (datum_label' (Z.of_nat i) (path_a, path_b, scalar))
        = [to_float scalar]) /\
  (forall key1 value1,
      In (Put db1 key1 value1) (fst main') ->
      exists lines0 i path_a path_b scalar,
        snd parsed = Returned lines0 /\
        nth_error (final_order flags shuffle lines0) i
        = Some (path_a, path_b, scalar) /\
        nth_error (puts db1 (fst main')) i = Some (key1, value1) /\
        value1 = datum_label' (Z.of_nat i) (path_a, path_b, scalar) /\
        label value1 = Z.of_nat i /\
        key1 = format_int (Z.of_nat i) 8 ++ lit "_" ++ path_a
               ++ lit "_" ++ path_b) /\
  (forall key1 value1 key value,
      In (Put db1 key1 value1) (fst main') ->
      In (Put db key value) (fst main') ->
      label value1 = label value ->
      key1 = key).
Proof.
  split; [|split].
  - intros key value H.
    destruct (image_put_of_record key value H)
      as [lines0 [i [[[a b] x] [st [d [P [N [R [K [V [L _]]]]]]]]]]].
    exists lines0, i, a, b, x, st, d.
    split; [exact P|]. split; [exact N|]. split; [exact R|].
    split; [exact V|]. split; [rewrite V; reflexivity|].
    split; [exact K|]. split; [exact L | reflexivity].
  - intros key1 value1 H.
    destruct (label_put_of_record key1 value1 H)
      as [lines0 [i [[[a b] x] [P [N [K [V [L _]]]]]]]].
    exists lines0, i, a, b, x.
    split; [exact P|]. split; [exact N|]. split; [exact L|].
    split; [exact V|]. split; [rewrite V; reflexivity | exact K].
  - intros key1 value1 key value H1 H L.
    destruct (label_put_is_record _ _ H1) as [l1 [j [w [P1 [N1 [K1 V1]]]]]].
    destruct (image_put_has_label_put _ _ H) as [l2 [i [v [P2 [N2 [K2 [L2 _]]]]]]].
    rewrite P1 in P2. injection P2 as <-.
    subst value1. cbn in L. rewrite L2 in L. apply Nat2Z.inj in L. subst j.
    rewrite N1 in N2. injection N2 as <-. congruence.
Qed.

(** *** Where the messages go *)

Lemma puts_label_loop lines :
  forall line_id n, 0 <= n ->
    puts db1 (fst (label_loop' lines line_id n)) = label_puts' line_id lines.
Proof.
  intros line_id n Hn. unfold puts.
  rewrite label_loop_ops by assumption. apply in_batches_puts.
Qed.

(** A loop over one store writes its puts where that store was opened. *)
Lemma written_loop (d : DbVar) (tr : list (Event float)) :
  Forall (loop_event d) tr ->
  forall loc1 loc rest,
    written loc1 loc (tr ++ rest) =
    map (fun kv => (match d with db1 => loc1 | db => loc end, fst kv, snd kv))
        (puts d tr)
    ++ written loc1 loc rest.
Proof.
  unfold puts.
  induction 1 as [|e tr He _ IH]; intros loc1 loc rest; [reflexivity|].
  destruct e; cbn [loop_event] in He; try contradiction;
    try subst d0; cbn [app written store_ops]; rewrite IH;
    destruct d; reflexivity.
Qed.

Lemma written_commit_last (d : DbVar) (n : Z) loc1 loc rest :
  written loc1 loc (fst (@commit_last float d n) ++ rest) = written loc1 loc rest.
Proof.
  rewrite commit_last_eq. cbn [fst]. destruct (_ =? 0); reflexivity.
Qed.

Lemma written_preamble (n : nat) loc1 loc rest :
  written loc1 loc (@preamble float flags n ++ rest) = written loc1 loc rest.
Proof. unfold preamble. destruct (_ && _); reflexivity. Qed.

(** The second half of [convert], from the image store's opening on. *)
Lemma written_images lines a2 loc1 loc :
  let img := image_loop' lines 0 initial_locals in
  written loc1 loc
    ([Open db a2; NewTransaction db; Cout (lit "writing images lmdb..." ++ [LF])]
     ++ fst img
     ++ match snd img with
        | Returned st => fst (@commit_last float db (count st))
        | _ => []
        end) =
  map (fun kv => (Some a2, fst kv, snd kv)) (puts db (fst img)).
Proof.
  cbv zeta. cbn [app written].
  rewrite (written_loop db) by apply image_loop_events.
  destruct (snd (image_loop' lines 0 initial_locals));
    [rewrite <- (app_nil_r (fst (commit_last db _))), written_commit_last|..];
    apply app_nil_r.
Qed.

Lemma written_convert lines loc1 loc :
  written loc1 loc (fst (convert' lines)) =
  map (fun kv => (nth_error argv 3, fst kv, snd kv))
      (if reaches_labels argv lines then label_puts' 0 lines else [])
  ++ map (fun kv => (nth_error argv 2, fst kv, snd kv))
       (if reaches_images argv lines
        then puts db (fst (image_loop' lines 0 initial_locals)) else []).
Proof.
  rewrite convert_eq. unfold reaches_images, reaches_labels.
  destruct (nth_error argv 3) as [a3|]; cbv zeta; cbn [fst].
  2: { rewrite <- (app_nil_r (preamble _ _)). apply written_preamble. }
  destruct (INT_MAX <? _); cbn [fst negb andb].
  { rewrite written_preamble. reflexivity. }
  destruct (nth_error argv 2) as [a2|]; cbn [fst];
    rewrite <- !app_assoc, written_preamble; cbn [app written];
    rewrite (written_loop db1) by apply label_loop_events;
    rewrite puts_label_loop by lia; f_equal;
    rewrite written_commit_last.
  - apply (written_images lines a2 (Some a3) loc).
  - reflexivity.
Qed.

(** The puts of a run with their places: what is put on [db1] goes where
    [argv[3]] says, what is put on [db] where [argv[2]] says. *)
Lemma writes_main :
  writes (fst main') =
  map (fun kv => (nth_error argv 3, fst kv, snd kv)) (puts db1 (fst main'))
  ++ map (fun kv => (nth_error argv 2, fst kv, snd kv)) (puts db (fst main')).
Proof.
  rewrite main_puts_db1, main_puts_db, main_eq. unfold writes.
  destruct (argc argv <? 3); [reflexivity|].
  destruct (snd parsed) as [lines0 | | | ]; cbn [fst]; try reflexivity.
  cbv zeta. cbn [written].
  destruct (FLAGS_shuffle flags); cbn [app written]; apply written_convert.
Qed.

(** C8, as amended: the first positional argument is the manifest that is
    read; every label message is written to the store opened under the third
    positional argument, and every image message (what the image reader
    built for a record, with index and key set) to the store opened under
    the second; a run that returns 0 has read the manifest, opened both
    stores under these names and written the label message of every record
    under the third. *)
Theorem destinations_by_position :
  (forall p, In (Ifstream p) (fst main') -> p = nth_error argv 1) /\
  (forall s, In (Open db1 s) (fst main') -> nth_error argv 3 = Some s) /\
  (forall s, In (Open db s) (fst main') -> nth_error argv 2 = Some s) /\
  (forall key value,
      In (Put db1 key value) (fst main') ->
      exists i v, value = datum_label' i v) /\
  (forall place key value,
      In (place, key, value) (writes (fst main')) ->
      place <> None /\
      exists lines0 i v,
        snd parsed = Returned lines0 /\
        nth_error (final_order flags shuffle lines0) i = Some v /\
        key = key_str (Z.of_nat i) v /\
        ((place = nth_error argv 3 /\
          value = datum_label' (Z.of_nat i) v) \/
         (place = nth_error argv 2 /\
          exists st d,
            read_images ReadImagesToDatum flags v (Z.of_nat i) st = (true, d) /\
            value = set_param (set_label d (Z.of_nat i)) key))) /\
  (snd main' = Returned 0 ->
   exists a2 a3 lines0,
     nth_error argv 2 = Some a2 /\ nth_error argv 3 = Some a3 /\
     snd parsed = Returned lines0 /\
     In (Ifstream (nth_error argv 1)) (fst main') /\
     In (Open db1 a3) (fst main') /\ In (Open db a2) (fst main') /\
     (forall i v,
         nth_error (final_order flags shuffle lines0) i = Some v ->
         In (Some a3, key_str (Z.of_nat i) v, datum_label' (Z.of_nat i) v)
            (writes (fst main'))) /\
     (forall key value,
         In (Put db key value) (fst main') ->
         In (Some a2, key, value) (writes (fst main')))).
Proof.
  pose proof main_names as N. rewrite Forall_forall in N.
  split; [intros p H; apply (N _ H)|].
  split; [intros s H; apply (N _ H)|].
  split; [intros s H; apply (N _ H)|].
  split; [|split].
  - intros key value H.
    destruct (label_put_is_record _ _ H) as [lines0 [i [v [_ [_ [_ E]]]]]].
    eauto.
  - intros place key value H. rewrite writes_main in H.
    apply in_app_iff in H. destruct H as [H | H]; apply in_map_iff in H;
      destruct H as [[k x] [E H]]; cbn [fst snd] in E;
      injection E as <- <- <-; apply in_puts_iff in H.
    + destruct (label_put_of_record _ _ H)
        as (lines0 & i & v & P & Nv & K & V & _ & A3).
      split; [exact A3|]. exists lines0, i, v.
      split; [exact P|]. split; [exact Nv|]. split; [exact K|].
      left. split; [reflexivity | exact V].
    + destruct (image_put_of_record _ _ H)
        as (lines0 & i & v & st & d & P & Nv & R & K & V & _ & A2 & _).
      split; [exact A2|]. exists lines0, i, v.
      split; [exact P|]. split; [exact Nv|]. split; [exact K|].
      right. split; [reflexivity|]. exists st, d. auto.
  - clear N. intros H.
    assert (P1 := main_puts_db1). assert (M := main_eq).
    rewrite snd_main in H.
    destruct (argc argv <? 3) eqn:A; [discriminate|].
    destruct (snd parsed) as [lines0 | | | ] eqn:P; try discriminate.
    cbv zeta in *. apply convert_returned in H. destruct H as [R _].
    unfold reaches_images in R. apply andb_true_iff in R.
    destruct R as [RL R2]. rewrite RL in P1.
    rewrite convert_eq in M. unfold reaches_labels in RL.
    destruct (nth_error argv 3) as [a3|] eqn:E3; [|discriminate RL].
    cbv zeta in M. destruct (INT_MAX <? _); [discriminate RL|].
    destruct (nth_error argv 2) as [a2|] eqn:E2; [|discriminate R2].
    cbn [fst snd] in M. exists a2, a3, lines0.
    split; [reflexivity|]. split; [reflexivity|]. split; [reflexivity|].
    split; [rewrite M; left; reflexivity|].
    split; [rewrite M; right; rewrite !in_app_iff; cbn [In]; auto 10|].
    split; [rewrite M; right; rewrite !in_app_iff; cbn [In]; auto 10|].
    clear M. split.
    + intros i v Nv. rewrite writes_main, E3, E2. apply in_or_app. left.
      apply in_map_iff.
      exists (key_str (Z.of_nat i) v, datum_label' (Z.of_nat i) v).
      split; [reflexivity|]. rewrite P1.
      apply (nth_error_In _ i).
      rewrite nth_error_label_puts, Nv, Z.add_0_l. reflexivity.
    + intros key value H. rewrite writes_main, E3, E2. apply in_or_app. right.
      apply in_map_iff. exists (key, value).
      split; [reflexivity|]. apply in_puts_iff. exact H.
Qed.

(** *** Single records in the second loop *)

Local Abbreviation image_body' := (image_body ReadImagesToDatum flags).
Local Abbreviation read_images' := (read_images ReadImagesToDatum flags).

Lemma image_body_skip line_id v st :
  fst (read_images' v line_id st) = false ->
  image_body' line_id v st =
  ([Log ERROR (lit "Skeep image pair " ++ key_str line_id v ++ [LF])],
   Returned (mkLocals (count st) (data_size st) (data_size_initialized st)
                      (snd (read_images' v line_id st)))).
Proof.
  intros H.
  destruct (image_body_case ReadImagesToDatum flags line_id v st)
    as [d R | d sz R C | d o R C N];
    rewrite R in H |- *; [reflexivity | discriminate H | discriminate H].
Qed.

(** The loop over [pre ++ v :: post], once the loop over [pre] is known. *)
Lemma image_loop_split pre v post evs st :
  image_loop' pre 0 initial_locals = (evs, Returned st) ->
  let next :=
    bind (image_body' (Z.of_nat (length pre)) v st)
         (fun st' => image_loop' post (Z.of_nat (length pre) + 1) st') in
  image_loop' (pre ++ v :: post) 0 initial_locals =
  (evs ++ fst next, snd next).
Proof.
  intros H. cbv zeta. rewrite image_loop_app.
  rewrite (bind_returned _ _ _ _ H). rewrite Z.add_0_l. reflexivity.
Qed.

Lemma reaches_images_true {A} (l : list A) :
  (4 <= length argv)%nat ->
  Z.of_nat (length l) <= INT_MAX ->
  reaches_images argv l = true /\ reaches_labels argv l = true /\
  (argc argv <? 3) = false.
Proof.
  intros Ha Hl. unfold reaches_images, reaches_labels, argc.
  destruct (nth_error argv 3) eqn:E3;
    [|apply nth_error_None in E3; lia].
  destruct (nth_error argv 2) eqn:E2;
    [|apply nth_error_None in E2; lia].
  assert ((INT_MAX <? Z.of_nat (length l)) = false) as ->
      by (apply Z.ltb_ge; lia).
  repeat split. apply Z.ltb_ge. lia.
Qed.

(** The keys put while the loop ran over [pre] belong to records before
    position [length pre]. *)
Lemma earlier_keys_differ pre line_id st v key value :
  In (Put db key value) (fst (image_loop' pre 0 st)) ->
  line_id = Z.of_nat (length pre) ->
  key <> key_str line_id v.
Proof.
  intros H -> E.
  apply (image_loop_puts ReadImagesToDatum flags) in H.
  destruct H as [i [w [H1 [H2 _]]]].
  assert (i < length pre)%nat by (apply nth_error_Some; congruence).
  rewrite H2 in E. apply key_str_inj in E; lia.
Qed.

Lemma later_keys_differ post line_id st v key value :
  In (Put db key value) (fst (image_loop' post (line_id + 1) st)) ->
  0 <= line_id ->
  key <> key_str line_id v.
Proof.
  intros H Hl E.
  apply (image_loop_puts ReadImagesToDatum flags) in H.
  destruct H as [i [w [H1 [H2 _]]]].
  rewrite H2 in E. apply key_str_inj in E; lia.
Qed.

(** C6: when the image of a record cannot be built, the image store gets
    no put under that record's key, the label store has that record's label
    message under the key, and the second loop goes on with the next record,
    having emitted nothing but a log line and changed no counter; if the
    rest of the loop returns, the run returns 0. *)
Theorem failed_image_build_is_skipped lines0 pre v post evs st :
  (4 <= length argv)%nat ->
  snd parsed = Returned lines0 ->
  final_order flags shuffle lines0 = pre ++ v :: post ->
  Z.of_nat (length (pre ++ v :: post)) <= INT_MAX ->
  image_loop' pre 0 initial_locals = (evs, Returned st) ->
  fst (read_images' v (Z.of_nat (length pre)) st) = false ->
  let line_id := Z.of_nat (length pre) in
  let key := key_str line_id v in
  let st' := mkLocals (count st) (data_size st) (data_size_initialized st)
                      (snd (read_images' v line_id st)) in
  let rest := image_loop' post (line_id + 1) st' in
  (forall value, ~ In (Put db key value) (fst main')) /\
  In (Put db1 key (datum_label' line_id v)) (fst main') /\
  image_loop' (pre ++ v :: post) 0 initial_locals =
    (evs ++ (Log ERROR (lit "Skeep image pair " ++ key ++ [LF]) :: fst rest),
     snd rest) /\
  (forall st'', snd rest = Returned st'' -> snd main' = Returned 0).
Proof.
  intros Hargv Hparsed Hlines Hlen Hpre Hfail. cbv zeta.
  destruct (reaches_images_true (pre ++ v :: post) Hargv Hlen) as [RI [RL A]].
  assert (Loop : image_loop' (pre ++ v :: post) 0 initial_locals =
                 (evs ++ (Log ERROR (lit "Skeep image pair "
                                     ++ key_str (Z.of_nat (length pre)) v ++ [LF])
                      :: fst (image_loop' post (Z.of_nat (length pre) + 1)
                                (mkLocals (count st) (data_size st)
                                   (data_size_initialized st)
                                   (snd (read_images' v (Z.of_nat (length pre)) st))))),
                  snd (image_loop' post (Z.of_nat (length pre) + 1)
                         (mkLocals (count st) (data_size st)
                            (data_size_initialized st)
                            (snd (read_images' v (Z.of_nat (length pre)) st)))))).
  { rewrite (image_loop_split pre v post evs st Hpre). cbv zeta.
    rewrite (image_body_skip _ _ _ Hfail).
    rewrite (bind_returned _ _ _ _ eq_refl). reflexivity. }
  split; [|split; [|split]].
  - intros value H. apply in_puts_iff in H.
    rewrite main_puts_db, A, Hparsed in H. cbv zeta in H.
    rewrite Hlines, RI, Loop in H. cbn [fst] in H.
    apply in_puts_iff, in_app_iff in H. destruct H as [H | [H | H]].
    + replace evs with (fst (image_loop' pre 0 initial_locals)) in H
        by (rewrite Hpre; reflexivity).
      exact (earlier_keys_differ _ _ _ v _ _ H eq_refl eq_refl).
    + discriminate H.
    + apply (later_keys_differ _ _ _ v _ _ H); [lia | reflexivity].
  - apply in_puts_iff. rewrite main_puts_db1, A, Hparsed. cbv zeta.
    rewrite Hlines, RL. rewrite in_label_puts.
    exists (length pre), v. rewrite Z.add_0_l.
    split; [|split; reflexivity].
    rewrite nth_error_app2, Nat.sub_diag by lia. reflexivity.
  - exact Loop.
  - intros st'' Hrest. rewrite snd_main, A, Hparsed, Hlines, convert_eq.
    unfold reaches_images, reaches_labels in RI.
    destruct (nth_error argv 3); [|discriminate RI]. cbv zeta.
    destruct (INT_MAX <? _); [discriminate RI|].
    destruct (nth_error argv 2); [|discriminate RI].
    cbn [snd]. rewrite Loop. cbn [snd]. rewrite Hrest. reflexivity.
Qed.

(** *** The size check *)

Lemma size_check_initialized st (d : Datum float) sz :
  data_size_initialized st = true ->
  size_check (FLAGS_check_size flags) st d = ([], Returned sz) ->
  sz = (data_size st, true).
Proof.
  intros I. unfold size_check. rewrite I. cbn [negb].
  destruct (FLAGS_check_size flags); [|intros [= <-]; reflexivity].
  destruct (_ =? _); [intros [= <-]; reflexivity | discriminate].
Qed.

Lemma size_check_first st (d : Datum float) sz :
  FLAGS_check_size flags = true ->
  data_size_initialized st = false ->
  size_check (FLAGS_check_size flags) st d = ([], Returned sz) ->
  sz = (channels d * height d * width d, true) /\
  INT_MIN <= channels d * height d * width d <= INT_MAX.
Proof.
  intros C I. unfold size_check, int_mul. rewrite C, I. cbn [negb].
  destruct (_ && _); [|discriminate]. rewrite bind_ret.
  destruct (_ && _) eqn:E; [|discriminate]. rewrite bind_ret.
  intros [= <-]. split; [reflexivity|].
  apply andb_true_iff in E. lia.
Qed.

Lemma size_check_mismatch st (d : Datum float) :
  FLAGS_check_size flags = true ->
  data_size_initialized st = true ->
  Z.of_nat (length (data d)) <> data_size st mod 2 ^ 64 ->
  size_check (FLAGS_check_size flags) st d =
  ([], CheckFailed (lit "Incorrect data field size "
                    ++ print_int (Z.of_nat (length (data d))))).
Proof.
  intros C I N. unfold size_check. rewrite C, I. cbn [negb].
  apply Z.eqb_neq in N. rewrite N. reflexivity.
Qed.

(** Once the expected size is set it stays. *)
Lemma image_loop_stable lines :
  forall line_id st st',
    snd (image_loop' lines line_id st) = Returned st' ->
    data_size_initialized st = true ->
    data_size st' = data_size st /\ data_size_initialized st' = true.
Proof.
  induction lines as [|v lines IH]; intros line_id st st'; cbn [image_loop].
  - cbn. intros [= <-]. auto.
  - rewrite snd_bind.
    destruct (image_body_case ReadImagesToDatum flags line_id v st)
      as [d R | d sz R C | d o R C N]; cbn [snd].
    + intros H I. apply IH in H; auto.
    + intros H I. rewrite (size_check_initialized _ _ _ I C) in H.
      apply IH in H; auto.
    + destruct o as [sz | | | ]; [exfalso; exact (N sz eq_refl) | | | ];
        discriminate.
Qed.

(** As long as nothing was put, the expected size is not set. *)
Lemma image_loop_quiet lines :
  forall line_id st st',
    snd (image_loop' lines line_id st) = Returned st' ->
    puts db (fst (image_loop' lines line_id st)) = [] ->
    data_size_initialized st' = data_size_initialized st.
Proof.
  induction lines as [|v lines IH]; intros line_id st st'; cbn [image_loop].
  - cbn. intros [= <-]. auto.
  - rewrite snd_bind, fst_bind.
    destruct (image_body_case ReadImagesToDatum flags line_id v st)
      as [d R | d sz R C | d o R C N]; cbn [fst snd].
    + intros H P. change (Log ERROR ?t :: ?l) with ([@Log float ERROR t] ++ l) in P.
      rewrite !puts_app in P. apply IH in H; auto.
    + intros _ P. discriminate P.
    + destruct o as [sz | | | ]; [exfalso; exact (N sz eq_refl) | | | ];
        discriminate.
Qed.

(** C7: with [check_size] on, the first image message that is built sets the
    expected size to its channels x height x width; a later message that is
    built with another number of data bytes ends the run in a failed CHECK
    before it is put: the image store has seen exactly the calls made for the
    records before it, so that record's key is not in the store, the batches
    committed until then are all that is persisted, and the puts since the
    last commit stay staged. *)
Theorem size_mismatch_is_fatal lines0 l1 v1 l2 v2 l3 e1 s1 d1 e2 s2 d2 :
  FLAGS_check_size flags = true ->
  (4 <= length argv)%nat ->
  snd parsed = Returned lines0 ->
  final_order flags shuffle lines0 = (l1 ++ v1 :: l2) ++ v2 :: l3 ->
  Z.of_nat (length ((l1 ++ v1 :: l2) ++ v2 :: l3)) <= INT_MAX ->
  image_loop' l1 0 initial_locals = (e1, Returned s1) ->
  puts db e1 = [] ->
  read_images' v1 (Z.of_nat (length l1)) s1 = (true, d1) ->
  image_loop' (l1 ++ v1 :: l2) 0 initial_locals = (e2, Returned s2) ->
  read_images' v2 (Z.of_nat (length (l1 ++ v1 :: l2))) s2 = (true, d2) ->
  Z.of_nat (length (data d2)) < 2 ^ 63 ->
  Z.of_nat (length (data d2)) <> channels d1 * height d1 * width d1 ->
  data_size s2 = channels d1 * height d1 * width d1 /\
  (exists text, snd main' = CheckFailed text) /\
  store_ops db (fst main') = store_ops db e2 /\
  (forall value,
      ~ In (Put db (key_str (Z.of_nat (length (l1 ++ v1 :: l2))) v2) value)
           (fst main')) /\
  (let s := store_after db (fst main') in
   concat (committed s) ++ staged s = puts db e2 /\
   Z.of_nat (length (staged s)) = Z.of_nat (length (puts db e2)) mod 1000 /\
   Forall (fun batch => length batch = 1000%nat) (committed s)).
Proof.
  intros Hcs Hargv Hparsed Hlines Hlen H1 Hquiet R1 H2 R2 Hmax Hneq.
  destruct (reaches_images_true _ Hargv Hlen) as [RI [RL A]].
  (* the expected size after the first built message *)
  assert (I1 : data_size_initialized s1 = false).
  { pose proof (image_loop_quiet l1 0 initial_locals s1) as Q.
    rewrite H1 in Q. apply Q; auto. }
  pose proof (image_loop_split l1 v1 l2 e1 s1 H1) as S1. cbv zeta in S1.
  rewrite H2 in S1. injection S1 as _ S1. symmetry in S1.
  apply snd_bind_returned in S1. destruct S1 as [sb [B1 L2]].
  assert (D : data_size s2 = channels d1 * height d1 * width d1 /\
              data_size_initialized s2 = true /\
              INT_MIN <= channels d1 * height d1 * width d1 <= INT_MAX).
  { destruct (image_body_case ReadImagesToDatum flags
                (Z.of_nat (length l1)) v1 s1) as [d R | d sz R C | d o R C N].
    - rewrite R in R1. discriminate R1.
    - rewrite R in R1. injection R1 as ->. injection B1 as <-.
      destruct (size_check_first _ _ _ Hcs I1 C) as [E Rg]. subst sz.
      apply image_loop_stable in L2; [|reflexivity].
      cbn [data_size data_size_initialized fst snd] in L2.
      destruct L2 as [L2a L2b]. auto.
    - destruct o as [sz | | | ]; [exfalso; exact (N sz eq_refl) | | | ];
        discriminate B1. }
  destruct D as [D1 [D2 D3]]. split; [exact D1|].
  (* the record that does not match *)
  assert (Hmis : Z.of_nat (length (data d2)) <> data_size s2 mod 2 ^ 64).
  { rewrite D1. unfold INT_MIN, INT_MAX in D3.
    pose proof (Z.mod_pos_bound (channels d1 * height d1 * width d1) (2 ^ 64)
                  ltac:(lia)) as Bm.
    destruct (Z_lt_le_dec (channels d1 * height d1 * width d1) 0) as [Neg | Pos].
    - assert ((channels d1 * height d1 * width d1) mod 2 ^ 64 =
              channels d1 * height d1 * width d1 + 2 ^ 64).
      { symmetry. apply Z.mod_unique with (q := -1); lia. }
      lia.
    - rewrite Z.mod_small by lia. exact Hneq. }
  assert (Body : image_body' (Z.of_nat (length (l1 ++ v1 :: l2))) v2 s2 =
                 ([], CheckFailed (lit "Incorrect data field size "
                                   ++ print_int (Z.of_nat (length (data d2)))))).
  { destruct (image_body_case ReadImagesToDatum flags
                (Z.of_nat (length (l1 ++ v1 :: l2))) v2 s2)
      as [d R | d sz R C | d o R C N];
      rewrite R in R2; try discriminate R2; injection R2 as ->;
      rewrite (size_check_mismatch _ _ Hcs D2 Hmis) in C;
      [discriminate C | injection C as <-; reflexivity]. }
  assert (Loop : image_loop' ((l1 ++ v1 :: l2) ++ v2 :: l3) 0 initial_locals =
                 (e2, CheckFailed (lit "Incorrect data field size "
                                   ++ print_int (Z.of_nat (length (data d2)))))).
  { rewrite (image_loop_split _ v2 l3 e2 s2 H2). cbv zeta.
    rewrite Body. cbn [bind fst snd]. rewrite app_nil_r. reflexivity. }
  assert (Ops : store_ops db (fst main') = store_ops db e2).
  { rewrite store_ops_main, A, Hparsed, Hlines, convert_ops_db, RI. cbv zeta.
    rewrite Loop. cbn [fst snd]. apply app_nil_r. }
  split; [|split; [exact Ops | split]].
  - eexists. rewrite snd_main, A, Hparsed, Hlines, convert_eq.
    unfold reaches_images, reaches_labels in RI.
    destruct (nth_error argv 3); [|discriminate RI]. cbv zeta.
    destruct (INT_MAX <? _); [discriminate RI|].
    destruct (nth_error argv 2); [|discriminate RI].
    cbn [snd]. rewrite Loop. reflexivity.
  - intros value H. apply in_puts_iff in H. unfold puts in H.
    rewrite Ops in H. fold (puts db e2) in H. apply in_puts_iff in H.
    replace e2 with (fst (image_loop' (l1 ++ v1 :: l2) 0 initial_locals)) in H
      by (rewrite H2; reflexivity).
    exact (earlier_keys_differ _ _ _ v2 _ _ H eq_refl eq_refl).
  - cbv zeta. unfold store_after. rewrite Ops.
    pose proof (image_loop_ops ReadImagesToDatum flags (l1 ++ v1 :: l2) 0
                  initial_locals ltac:(cbn; lia)) as O.
    rewrite H2 in O. cbn [fst count initial_locals] in O. rewrite O.
    destruct (replay_in_batches (puts db e2) 0 empty_store) as [C [L F]];
      [lia | reflexivity | constructor |].
    cbn [empty_store committed staged concat app] in C.
    rewrite Z.add_0_l in L. auto.
Qed.

(** *** Exceptions and the usage message *)

Lemma size_check_not_thrown cs st (d : Datum float) what :
  snd (size_check cs st d) <> Thrown what.
Proof.
  unfold size_check, int_mul. destruct cs; [|discriminate].
  destruct (negb _).
  - destruct (_ && _); [|discriminate]. rewrite bind_ret.
    destruct (_ && _); discriminate.
  - destruct (_ =? _); discriminate.
Qed.

Lemma image_loop_not_thrown lines :
  forall line_id st what, snd (image_loop' lines line_id st) <> Thrown what.
Proof.
  induction lines as [|v lines IH]; intros line_id st what; cbn [image_loop];
    [discriminate|].
  rewrite snd_bind.
  destruct (image_body_case ReadImagesToDatum flags line_id v st)
    as [d R | d sz R C | d o R C N]; cbn [snd]; try apply IH.
  pose proof (size_check_not_thrown (FLAGS_check_size flags) st d) as T.
  rewrite C in T. cbn [snd] in T.
  destruct o as [sz | what' | | ]; cbn [outcome_map]; try discriminate.
  - exfalso. exact (N sz eq_refl).
  - exfalso. exact (T what' eq_refl).
Qed.

(** The only exceptions of a run are those of the manifest reader, and its
    syntax error names line 0 whichever line is at fault. *)
Lemma main_thrown (what : str) :
  snd main' = Thrown what ->
  what = syntax_error 0 \/ what = lit "stod".
Proof.
  rewrite snd_main. destruct (argc argv <? 3); [discriminate|].
  destruct (snd parsed) as [lines0 | what' | | ] eqn:E; try discriminate.
  - rewrite convert_eq.
    destruct (nth_error argv 3); [|discriminate]. cbv zeta.
    destruct (INT_MAX <? _); [discriminate|].
    destruct (nth_error argv 2); [|discriminate]. cbn [snd].
    pose proof (image_loop_not_thrown (final_order flags shuffle lines0) 0
                  initial_locals) as T.
    destruct (snd (image_loop' _ 0 initial_locals)) as [st | w | | ];
      cbn [outcome_map]; try discriminate.
    intros _. exfalso. exact (T w eq_refl).
  - intros [= <-]. exact (read_lines_thrown stod _ _ _ _ E).
Qed.

(** Without two positional arguments [main] shows the usage message and
    returns 1. *)
Lemma main_usage :
  argc argv < 3 ->
  main' = ([ShowUsage (nth_error argv 0)], Returned 1).
Proof.
  intros H. rewrite main_eq. apply Z.ltb_lt in H. rewrite H. reflexivity.
Qed.

(** With exactly two positional arguments the test [argc < 3] does not
    fire: no usage message, and the run cannot return, since [argv[3]] is
    the null pointer. *)
Lemma main_two_positional :
  length argv = 3%nat ->
  (forall code, snd main' <> Returned code) /\
  (forall a, ~ In (ShowUsage a) (fst main')).
Proof.
  intros L.
  assert (A : (argc argv <? 3) = false) by (unfold argc; rewrite L; reflexivity).
  assert (E3 : nth_error argv 3 = None) by (apply nth_error_None; lia).
  rewrite main_eq, A.
  destruct (snd parsed) as [lines0 | | | ]; cbn [snd fst];
    try (split; [discriminate | intros a [H | []]; discriminate H]).
  rewrite convert_eq, E3. cbn [snd fst]. split; [discriminate|].
  intros a [H | H]; [discriminate H|].
  apply in_app_iff in H. unfold preamble in H.
  destruct (FLAGS_shuffle flags), (_ && _); cbn in H;
    intuition discriminate.
Qed.

End MainFacts.


(** ** The manifest reader, stated on the manifest *)

(** C10, as amended: when every line of the manifest, empty lines included,
    splits into exactly three tokens of which [std::stod] accepts the third,
    the parse succeeds with exactly one record per line, in line order; a
    manifest with an empty line makes the parse fail, for an empty line is
    one (empty) token. *)
Theorem well_formed_manifest_parses {double float : Type}
    (stod : str -> option double) (content : str) :
  (Forall (well_formed stod) (getlines content) ->
   exists records,
     @read_lines double float stod (getlines content) 0 [] =
       ([], Returned records) /\
     map Some records = map (record_of stod) (getlines content) /\
     length records = length (getlines content)) /\
  (In [] (getlines content) ->
   exists what,
     @read_lines double float stod (getlines content) 0 [] = ([], Thrown what)).
Proof.
  split.
  - intros H.
    destruct (read_lines_well_formed (float := float) stod _ H 0 [])
      as [records [E1 E2]].
    exists records. split; [exact E1|]. split; [exact E2|].
    rewrite <- (length_map Some), E2, length_map. reflexivity.
  - intros H. apply read_lines_malformed.
    apply Exists_exists. exists []. split; [exact H|].
    unfold malformed. cbn. discriminate.
Qed.

(** ** Keys in final order *)

(** C2, as amended: the keys of distinct positions of a record sequence are
    distinct strings, and of two positions below 10^8 the earlier one has the
    lexicographically smaller key. *)
Theorem keys_distinct_and_ordered {double : Type}
    (lines : list (value_type double)) (i j : nat) (ki kj : str) :
  nth_error (keys_from 0 lines) i = Some ki ->
  nth_error (keys_from 0 lines) j = Some kj ->
  (i <> j -> ki <> kj) /\
  ((i < j)%nat -> Z.of_nat j < 10 ^ 8 -> str_lt ki kj).
Proof.
  rewrite !nth_error_keys_from, !Z.add_0_l.
  destruct (nth_error lines i) as [v|]; [|discriminate].
  destruct (nth_error lines j) as [w|]; [|discriminate].
  cbn [option_map]. intros [= <-] [= <-]. split.
  - intros N E. apply key_str_inj in E; lia.
  - intros L B. apply key_str_lt; lia.
Qed.

(** ** Runs in the concrete world *)

Ltac find_in := solve [repeat (first [left; reflexivity | right])].

(** C1, witness: the image message of the second of three records. *)
Lemma label_and_image_keys_agree_witness :
  exists i path_a path_b scalar,
    nth_error [(lit "a", lit "b", 1); (lit "cc", lit "d", 2); ([], lit "e", 3)] i
    = Some (path_a, path_b, scalar) /\
    lit "00000001_cc_d" =
      format_int (Z.of_nat i) 8 ++ lit "_" ++ path_a ++ lit "_" ++ path_b /\
    nth_error (puts db1 (fst (Demo.run default_flags Demo.three_records
                                Demo.args))) i
    = Some (lit "00000001_cc_d",
            datum_label (fun x => x) 0 (Z.of_nat i) (path_a, path_b, scalar)).
Proof.
  destruct (proj1 (label_and_image_keys_agree Demo.stod (fun x => x) 0 (@rev _)
                     Demo.ReadImagesToDatum (Demo.fs Demo.three_records)
                     default_flags Demo.args)
                  (lit "00000001_cc_d")
                  (mkDatum 1 1 2 (lit "d") 1 [] false (lit "00000001_cc_d")))
    as (lines0 & i & a & b & x & st & d & P & N & _ & _ & _ & K & L & _).
  - vm_compute. find_in.
  - exists i, a, b, x. vm_compute in P. injection P as <-.
    split; [exact N|]. split; [exact K | exact L].
Defined.

(** C2, witness: the keys of the first two of three records. *)
Lemma keys_distinct_and_ordered_witness :
  lit "00000000_a_b" <> lit "00000001_cc_d" /\
  str_lt (lit "00000000_a_b") (lit "00000001_cc_d").
Proof.
  destruct (keys_distinct_and_ordered
              [(lit "a", lit "b", 1); (lit "cc", lit "d", 2); ([], lit "e", 3)]
              0 1 (lit "00000000_a_b") (lit "00000001_cc_d")
              eq_refl eq_refl) as [D O].
  split; [apply D; discriminate | apply O; [lia | reflexivity]].
Defined.

(** C2, counterexample: in a sequence of 100000001 records the key of
    position 99999999 starts with ['9'] and the key of position 100000000
    with ['1'], so the later key is the smaller one. *)
Lemma key_order_breaks_at_nine_digits :
  ~ (forall (lines : list (value_type unit)) (i j : nat) (ki kj : str),
        nth_error (keys_from 0 lines) i = Some ki ->
        nth_error (keys_from 0 lines) j = Some kj ->
        (i <> j -> ki <> kj) /\ ((i < j)%nat -> str_lt ki kj)).
Proof.
  intros H.
  pose (v := (@nil ascii, @nil ascii, tt)).
  assert (N : forall k : Z,
             0 <= k < 100000001 ->
             nth_error (keys_from 0 (repeat v (Z.to_nat 100000001))) (Z.to_nat k)
             = Some (key_str k v)).
  { intros k Hk. rewrite nth_error_keys_from, nth_error_repeat by lia.
    cbn [option_map]. rewrite Z.add_0_l, Z2Nat.id by lia. reflexivity. }
  destruct (H _ _ _ _ _ (N 99999999 ltac:(lia)) (N 100000000 ltac:(lia)))
    as [_ O].
  assert (L : (Z.to_nat 99999999 < Z.to_nat 100000000)%nat) by lia.
  apply O, str_ltb_spec in L. vm_compute in L. discriminate L.
Qed.

(** C3, witness: 1500 records, 1500 puts into the label store, 2 commits. *)
Lemma commits_follow_batches_witness :
  commits db1 (fst (Demo.run default_flags (Demo.many 1500) Demo.args)) = 2%nat.
Proof.
  refine (proj2 (proj2 (proj2 (proj2
            (commits_follow_batches Demo.stod (fun x => x) 0 (@rev _)
               Demo.ReadImagesToDatum (Demo.fs (Demo.many 1500))
               default_flags Demo.args db1 0 _)))) _);
    vm_compute; reflexivity.
Defined.

(** C4, witness: the second line has two tokens. *)
Lemma malformed_manifest_is_fatal_witness :
  exists what,
    Demo.run default_flags Demo.second_line_short Demo.args =
      ([Ifstream (Some Demo.manifest_path)], Thrown what) /\
    Forall (fun e => touches_store e = false)
           (fst (Demo.run default_flags Demo.second_line_short Demo.args)).
Proof.
  apply (malformed_manifest_is_fatal Demo.stod (fun x => x) 0 (@rev _)
           Demo.ReadImagesToDatum (Demo.fs Demo.second_line_short)
           default_flags Demo.args Demo.manifest_path Demo.second_line_short).
  - vm_compute. discriminate.
  - reflexivity.
  - reflexivity.
  - apply Exists_cons_tl, Exists_cons_hd. vm_compute. discriminate.
Defined.

(** C5: the first line of the manifest is well formed and the second (line
    1, counting from 0) has two tokens; the exception says line 0. *)
Theorem second_line_short_reports_line_0 :
  getlines Demo.second_line_short = [lit "a b 1"; lit "c d"] /\
  length (split (c_str (lit "a b 1")) " "%char) = 3%nat /\
  length (split (c_str (lit "c d")) " "%char) = 2%nat /\
  Demo.run default_flags Demo.second_line_short Demo.args =
    ([Ifstream (Some Demo.manifest_path)],
     Thrown (lit "line 0: syntax error, can't find 3 tokens")).
Proof. repeat split; vm_compute; reflexivity. Qed.

(** C9: with the manifest and one store name on the command line (two
    positional arguments, [argc = 3]) the test [argc < 3] lets the run go on:
    no usage message, the manifest is read, and the run ends where
    [argv[3]], the null pointer, is made the name of the label store. *)
Theorem two_positional_arguments_pass_the_check :
  Demo.run default_flags Demo.three_records Demo.two_args =
    ([Ifstream (Some Demo.manifest_path);
      Log INFO (lit "A total of 3 images.");
      Cout (lit "writing labels db" ++ [LF]);
      GetDB db1 (lit "lmdb")],
     Undefined).
Proof. vm_compute. reflexivity. Qed.

(** C6, witness: the third of three records has no readable image. *)
Lemma failed_image_build_is_skipped_witness :
  (forall value,
      ~ In (Put db (lit "00000002__e") value)
           (fst (Demo.run default_flags Demo.three_records Demo.args))) /\
  In (Put db1 (lit "00000002__e")
          (mkDatum 1 1 1 [] 2 [3] false (lit "00000002__e")))
     (fst (Demo.run default_flags Demo.three_records Demo.args)) /\
  snd (Demo.run default_flags Demo.three_records Demo.args) = Returned 0.
Proof.
  pose (pre := [(lit "a", lit "b", 1); (lit "cc", lit "d", 2)]).
  pose (v := (@nil ascii, lit "e", 3)).
  destruct (failed_image_build_is_skipped Demo.stod (fun x => x) 0 (@rev _)
              Demo.ReadImagesToDatum (Demo.fs Demo.three_records)
              default_flags Demo.args (pre ++ [v]) pre v []
              (fst (Demo.loop_over default_flags pre))
              (Demo.locals_after default_flags pre))
    as [NoPut [LabelPut [_ Goes]]].
  - vm_compute. lia.
  - vm_compute. reflexivity.
  - reflexivity.
  - vm_compute. discriminate.
  - vm_compute. reflexivity.
  - vm_compute. reflexivity.
  - split; [exact NoPut | split; [exact LabelPut|]].
    eapply Goes. vm_compute. reflexivity.
Defined.

(** C7, witness: four records with [check_size]; the fourth image has 3
    bytes where 2 are expected. *)
Lemma size_mismatch_is_fatal_witness :
  data_size (Demo.locals_after Demo.check_size_flags
               [([], lit "x", 2); (lit "ab", lit "c", 1); (lit "de", lit "fg", 3)])
    = 1 * 1 * 2 /\
  snd (Demo.run Demo.check_size_flags Demo.sizes_differ Demo.args) =
    CheckFailed (lit "Incorrect data field size 3") /\
  puts db (fst (Demo.run Demo.check_size_flags Demo.sizes_differ Demo.args)) =
    [(lit "00000001_ab_c",
      mkDatum 1 1 2 (lit "c") 1 [] false (lit "00000001_ab_c"));
     (lit "00000002_de_fg",
      mkDatum 1 1 2 (lit "fg") 2 [] false (lit "00000002_de_fg"))] /\
  committed (store_after db
               (fst (Demo.run Demo.check_size_flags Demo.sizes_differ Demo.args)))
    = [].
Proof.
  pose (l1 := [(@nil ascii, lit "x", 2)]).
  pose (v1 := (lit "ab", lit "c", 1)).
  pose (l2 := [(lit "de", lit "fg", 3)]).
  pose (v2 := (lit "hi", lit "jkl", 4)).
  destruct (size_mismatch_is_fatal Demo.stod (fun x => x) 0 (@rev _)
              Demo.ReadImagesToDatum (Demo.fs Demo.sizes_differ)
              Demo.check_size_flags Demo.args
              ((l1 ++ v1 :: l2) ++ [v2]) l1 v1 l2 v2 []
              (fst (Demo.loop_over Demo.check_size_flags l1))
              (Demo.locals_after Demo.check_size_flags l1)
              (mkDatum 1 1 2 (lit "c") 1 [] false [])
              (fst (Demo.loop_over Demo.check_size_flags (l1 ++ v1 :: l2)))
              (Demo.locals_after Demo.check_size_flags (l1 ++ v1 :: l2))
              (mkDatum 1 1 2 (lit "jkl") 3 [] false (lit "00000002_de_fg")))
    as [Size [[text Fails] [Ops [NoPut Store]]]].
  - reflexivity.
  - vm_compute. lia.
  - vm_compute. reflexivity.
  - reflexivity.
  - vm_compute. discriminate.
  - vm_compute. reflexivity.
  - vm_compute. reflexivity.
  - vm_compute. reflexivity.
  - vm_compute. reflexivity.
  - vm_compute. reflexivity.
  - vm_compute. reflexivity.
  - vm_compute. discriminate.
  - split; [exact Size|]. split; [vm_compute; reflexivity|].
    split; vm_compute; reflexivity.
Defined.

(** C8, counterexample: the label message of the first record is written to
    the store opened under the third positional argument, which is not the
    second one; so it is false that every label message goes where the second
    positional argument says. *)
Lemma label_store_is_not_second_argument :
  ~ (forall place key i v,
        In (place, key, datum_label (fun x => x) 0 i v)
           (writes (fst (Demo.run default_flags Demo.three_records Demo.args))) ->
        place = nth_error Demo.args 2).
Proof.
  intros H.
  specialize (H (Some (lit "labels_db")) (lit "00000000_a_b") 0
                (lit "a", lit "b", 1)).
  assert (I : In (Some (lit "labels_db"), lit "00000000_a_b",
                  datum_label (fun x => x) 0 0 (lit "a", lit "b", 1))
                 (writes (fst (Demo.run default_flags Demo.three_records
                                 Demo.args))))
    by (vm_compute; find_in).
  apply H in I. vm_compute in I. discriminate I.
Qed.

(** C8, witness: a run with the manifest and two store names returns 0; the
    three label messages are written under [labels_db], the third positional
    argument, and what is put on the image store under [images_db], the
    second. *)
Lemma destinations_by_position_witness :
  exists a2 a3 lines0,
    nth_error Demo.args 2 = Some a2 /\ nth_error Demo.args 3 = Some a3 /\
    snd (read_lines (float := Z) Demo.stod
           (infile (Demo.fs Demo.three_records) (nth_error Demo.args 1)) 0 [])
    = Returned lines0 /\
    In (Ifstream (nth_error Demo.args 1))
       (fst (Demo.run default_flags Demo.three_records Demo.args)) /\
    In (Open db1 a3) (fst (Demo.run default_flags Demo.three_records Demo.args)) /\
    In (Open db a2) (fst (Demo.run default_flags Demo.three_records Demo.args)) /\
    (forall i v,
        nth_error (final_order default_flags (@rev _) lines0) i = Some v ->
        In (Some a3, key_str (Z.of_nat i) v,
            datum_label (fun x => x) 0 (Z.of_nat i) v)
           (writes (fst (Demo.run default_flags Demo.three_records Demo.args)))) /\
    (forall key value,
        In (Put db key value)
           (fst (Demo.run default_flags Demo.three_records Demo.args)) ->
        In (Some a2, key, value)
           (writes (fst (Demo.run default_flags Demo.three_records Demo.args)))).
Proof.
  apply (proj2 (proj2 (proj2 (proj2 (proj2
           (destinations_by_position Demo.stod (fun x => x) 0 (@rev _)
              Demo.ReadImagesToDatum (Demo.fs Demo.three_records)
              default_flags Demo.args)))))).
  vm_compute. reflexivity.
Defined.

(** C10, counterexample: every non-empty line of the manifest has three
    tokens, the second line is empty, and the parse fails whatever
    [std::stod] does. *)
Lemma empty_line_fails_the_parse :
  Forall (fun line => line <> [] ->
                      length (split (c_str line) " "%char) = 3%nat)
         (getlines Demo.with_empty_line) /\
  forall (double float : Type) (stod : str -> option double),
    ~ (exists records,
          snd (@read_lines double float stod
                 (getlines Demo.with_empty_line) 0 [])
          = Returned records).
Proof.
  split.
  - repeat constructor; intros N; try reflexivity. exfalso. apply N. reflexivity.
  - intros double float stod [records H].
    destruct (read_lines_malformed (float := float) stod
                (getlines Demo.with_empty_line)) with (line_no := 0)
                (lines := @nil (value_type double)) as [what E].
    + apply Exists_cons_tl, Exists_cons_hd. vm_compute. discriminate.
    + rewrite E in H. discriminate H.
Qed.

(** C10, witness: a manifest of three well-formed lines. *)
Lemma well_formed_manifest_parses_witness :
  exists records,
    @read_lines Z Z Demo.stod (getlines Demo.three_records) 0 [] =
      ([], Returned records) /\
    map Some records = map (record_of Demo.stod) (getlines Demo.three_records) /\
    length records = length (getlines Demo.three_records).
Proof.
  apply (proj1 (well_formed_manifest_parses Demo.stod Demo.three_records)).
  repeat constructor; vm_compute; discriminate.
Defined.

(** * Further properties *)

(** ** split *)

Lemma split_from_nonempty (s : str) :
  forall tok c, split_from tok s c <> [].
Proof.
  induction s as [|x s IH]; intros tok c; cbn [split_from]; [discriminate|].
  destruct (Ascii.eqb x NUL); [discriminate|].
  destruct (Ascii.eqb x c); [discriminate | apply IH].
Qed.

Lemma join_cons (c : ascii) (t : str) (rest : list str) :
  rest <> [] -> join c (t :: rest) = t ++ c :: join c rest.
Proof. destruct rest; [contradiction | reflexivity]. Qed.

Lemma join_split_from (s : str) :
  forall tok c, join c (split_from tok s c) = rev tok ++ c_str s.
Proof.
  induction s as [|x s IH]; intros tok c; cbn [split_from c_str].
  - cbn [join]. rewrite app_nil_r. reflexivity.
  - destruct (Ascii.eqb x NUL) eqn:N; [cbn [join]; rewrite app_nil_r; reflexivity|].
    destruct (Ascii.eqb x c) eqn:E.
    + apply Ascii.eqb_eq in E. subst x.
      rewrite join_cons by apply split_from_nonempty.
      rewrite IH. reflexivity.
    + rewrite IH. cbn [rev]. rewrite <- app_assoc. reflexivity.
Qed.

(** X1: putting the tokens of [split] together again with the separator
    between them gives back the string [split] was called on, up to its
    terminator: nothing is lost and nothing is added. *)
Theorem join_split (s : str) (c : ascii) : join c (split s c) = c_str s.
Proof. unfold split. rewrite join_split_from. reflexivity. Qed.

Lemma split_from_plain (s : str) :
  forall tok c,
    plain c tok -> Forall (plain c) (split_from tok s c).
Proof.
  assert (R : forall c tok, plain c tok -> plain c (rev tok)).
  { intros c tok [H1 H2]. split; rewrite <- in_rev; assumption. }
  induction s as [|x s IH]; intros tok c P; cbn [split_from].
  - constructor; [apply R, P | constructor].
  - destruct (Ascii.eqb x NUL) eqn:N; [constructor; [apply R, P | constructor]|].
    destruct (Ascii.eqb x c) eqn:E.
    + constructor; [apply R, P|]. apply IH. split; intros [].
    + apply IH. apply Ascii.eqb_neq in N, E. destruct P as [P1 P2].
      split; intros [H | H]; auto.
Qed.

Lemma split_from_length (s : str) :
  forall tok c,
    length (split_from tok s c) = S (count_occ ascii_dec (c_str s) c).
Proof.
  induction s as [|x s IH]; intros tok c; cbn [split_from c_str]; [reflexivity|].
  destruct (Ascii.eqb x NUL) eqn:N; [reflexivity|].
  cbn [count_occ]. destruct (ascii_dec x c) as [-> | D].
  - rewrite Ascii.eqb_refl. cbn [length]. rewrite IH. reflexivity.
  - apply Ascii.eqb_neq in D. rewrite D. apply IH.
Qed.

Lemma split_plain (s : str) (c : ascii) : Forall (plain c) (split s c).
Proof. apply split_from_plain. split; intros []. Qed.

(** X2: [split] gives one token more than there are separators before the
    terminator (so at least one token, also for the empty string), and no
    token contains the separator or a NUL. *)
Theorem split_tokens (s : str) (c : ascii) :
  length (split s c) = S (count_occ ascii_dec (c_str s) c) /\
  Forall (plain c) (split s c).
Proof. split; [apply split_from_length | apply split_plain]. Qed.

Lemma split_from_app_plain (t : str) :
  forall tok s c,
    plain c t -> split_from tok (t ++ s) c = split_from (rev t ++ tok) s c.
Proof.
  induction t as [|x t IH]; intros tok s c [P1 P2]; [reflexivity|].
  cbn [app split_from].
  assert (Nx : Ascii.eqb x NUL = false)
    by (apply Ascii.eqb_neq; intros ->; apply P2; left; reflexivity).
  assert (Cx : Ascii.eqb x c = false)
    by (apply Ascii.eqb_neq; intros ->; apply P1; left; reflexivity).
  rewrite Nx, Cx, IH.
  - cbn [rev]. rewrite <- app_assoc. reflexivity.
  - split; intros H; [apply P1 | apply P2]; right; exact H.
Qed.

(** X3: [split] finds again the tokens a line was made of: for a separator
    other than NUL and at least one token, none of which contains the
    separator or a NUL, splitting the joined tokens returns them. *)
Theorem split_join (c : ascii) (tokens : list str) :
  c <> NUL ->
  tokens <> [] ->
  Forall (plain c) tokens ->
  split (join c tokens) c = tokens.
Proof.
  intros Hc Hne Hp. unfold split.
  induction Hp as [|t rest Pt Prest IH]; [contradiction|].
  destruct rest as [|t' rest'].
  - cbn [join]. pose proof (split_from_app_plain t [] [] c Pt) as E.
    rewrite !app_nil_r in E. rewrite E.
    cbn [split_from]. rewrite rev_involutive. reflexivity.
  - rewrite join_cons by discriminate.
    rewrite split_from_app_plain by exact Pt.
    cbn [split_from].
    assert (Nc : Ascii.eqb c NUL = false) by (apply Ascii.eqb_neq; exact Hc).
    rewrite Nc, Ascii.eqb_refl, app_nil_r, rev_involutive.
    f_equal. apply IH. discriminate.
Qed.

(** X3, witness: the three tokens of a manifest line. *)
Lemma split_join_witness :
  split (join " "%char [lit "a.png"; lit "b.png"; lit "0.5"]) " "%char
  = [lit "a.png"; lit "b.png"; lit "0.5"].
Proof.
  apply split_join.
  - discriminate.
  - discriminate.
  - repeat constructor; vm_compute; intuition discriminate.
Defined.

(** ** More on the manifest reader *)

Section MoreReaderFacts.

Context {double float : Type} (stod : str -> option double).

Lemma read_lines_returned input :
  forall line_no lines result,
    snd (@read_lines double float stod input line_no lines) = Returned result ->
    exists records,
      result = lines ++ records /\
      map Some records = map (record_of stod) input.
Proof.
  induction input as [|line rest IH]; intros line_no lines result;
    cbn [read_lines].
  - cbn. intros [= <-]. exists []. rewrite app_nil_r. auto.
  - destruct (negb _); [discriminate|].
    destruct (stod (token (split (c_str line) " "%char) 2)) as [x|] eqn:E;
      [|discriminate].
    intros H. apply IH in H. destruct H as [records [H1 H2]].
    eexists (_ :: records). rewrite H1, <- app_assoc. split; [reflexivity|].
    cbn [map]. unfold record_of at 1. rewrite E, H2. reflexivity.
Qed.

Lemma token_plain (c : ascii) (tokens : list str) (i : nat) :
  Forall (plain c) tokens -> plain c (token tokens i).
Proof.
  intros F. unfold token. revert i.
  induction F as [|t rest Pt _ IH]; intros [|i]; cbn [nth]; auto;
    split; intros [].
Qed.

(** X4: the two paths of every record the reader returns are free of
    spaces and NULs, and there is one record per line; what a line holds
    after a NUL is not read. *)
Theorem parsed_paths_are_plain input records :
  snd (@read_lines double float stod input 0 []) = Returned records ->
  length records = length input /\
  Forall (fun r => plain " "%char (get0 r) /\ plain " "%char (get1 r)) records.
Proof.
  intros H. apply read_lines_returned in H.
  destruct H as [recs [-> H]]. cbn [app]. split.
  - rewrite <- (length_map Some), H, length_map. reflexivity.
  - clear -H. revert recs H.
    induction input as [|line rest IH]; intros [|r recs] H; try discriminate;
      constructor.
    + cbn [map] in H. injection H as H _. unfold record_of in H.
      destruct (stod _); [|discriminate]. injection H as ->.
      cbn [get0 get1 fst snd].
      split; apply token_plain, split_plain.
    + apply IH. cbn [map] in H. injection H as _ H. exact H.
Qed.

End MoreReaderFacts.

(** X4, witness: the three records of the demo manifest. *)
Lemma parsed_paths_are_plain_witness :
  length [(lit "a", lit "b", 1); (lit "cc", lit "d", 2); ([], lit "e", 3)]
  = length (getlines Demo.three_records) /\
  Forall (fun r : value_type Z =>
            plain " "%char (get0 r) /\ plain " "%char (get1 r))
         [(lit "a", lit "b", 1); (lit "cc", lit "d", 2); ([], lit "e", 3)].
Proof.
  apply (parsed_paths_are_plain (float := Z) Demo.stod).
  vm_compute. reflexivity.
Defined.

(** ** More on main *)

Section MoreMainFacts.

Context {double float : Type}.
Context (stod : str -> option double).
Context (to_float : double -> float) (float_zero : float).
Context (shuffle : list (value_type double) -> list (value_type double)).
Context (ReadImagesToDatum :
           str * str -> Z -> Z -> Z -> bool -> Datum float -> bool * Datum float).
Context (fs : str -> option str).
Context (flags : Flags) (argv : list str).

Local Abbreviation label_loop' := (label_loop to_float float_zero).
Local Abbreviation label_puts' := (label_puts to_float float_zero).
Local Abbreviation datum_label' := (datum_label to_float float_zero).
Local Abbreviation image_loop' := (image_loop ReadImagesToDatum flags).
Local Abbreviation convert' :=
  (convert to_float float_zero ReadImagesToDatum flags argv).
Local Abbreviation main' :=
  (main stod to_float float_zero shuffle ReadImagesToDatum fs flags argv).
Local Abbreviation parsed :=
  (@read_lines double float stod (infile fs (nth_error argv 1)) 0 []).
Local Abbreviation final' := (final_order flags shuffle).

Implicit Types (v : value_type double)
         (lines pre post : list (value_type double)) (st : Locals float).

(** How [convert] ends, read off the second loop. *)
Lemma snd_convert lines :
  snd (convert' lines) =
  if reaches_images argv lines
  then outcome_map (fun _ => 0) (snd (image_loop' lines 0 initial_locals))
  else Undefined.
Proof.
  rewrite convert_eq. unfold reaches_images, reaches_labels.
  destruct (nth_error argv 3); [|reflexivity]. cbv zeta.
  destruct (INT_MAX <? _); [reflexivity|].
  destruct (nth_error argv 2); reflexivity.
Qed.


(** A line that is not well formed, for its token count or for its third
    token, stops the reader with an exception. *)
Lemma read_lines_not_well_formed input :
  Exists (fun line => ~ well_formed stod line) input ->
  forall line_no lines,
    exists what,
      @read_lines double float stod input line_no lines = ([], Thrown what) /\
      (what = syntax_error line_no \/ what = lit "stod").
Proof.
  induction 1 as [line rest Hbad | line rest _ IH]; intros;
    cbn [read_lines].
  - destruct (length _ =? 3)%nat eqn:E; cbn [negb];
      [|eexists; split; [reflexivity | auto]].
    destruct (stod _) eqn:S; [|eexists; split; [reflexivity | auto]].
    exfalso. apply Hbad. split; [apply Nat.eqb_eq; exact E | congruence].
  - destruct (negb _); [eexists; split; [reflexivity | auto]|].
    destruct (stod _); [apply IH | eexists; split; [reflexivity | auto]].
Qed.

(** X5: a third token that [std::stod] rejects is as fatal as a wrong token
    count: with a line in the manifest that is not well formed, a run with
    at least two positional arguments ends in an uncaught exception while
    the manifest is parsed, having done nothing but open the manifest; the
    exception is the syntax error, which names line 0, or [std::stod]'s. *)
Theorem unparsable_manifest_is_fatal (path content : str) :
  3 <= argc argv ->
  nth_error argv 1 = Some path ->
  fs path = Some content ->
  Exists (fun line => ~ well_formed stod line) (getlines content) ->
  exists what,
    main' = ([Ifstream (Some path)], Thrown what) /\
    (what = syntax_error 0 \/ what = lit "stod").
Proof.
  intros A Hp Hfs Hbad.
  rewrite main_eq. apply Z.ltb_ge in A. rewrite A, Hp. cbn [infile].
  rewrite Hfs.
  destruct (read_lines_not_well_formed _ Hbad 0 []) as [what [E W]].
  rewrite E. cbn [snd]. eauto.
Qed.


(** Without [check_size] nothing stops the second loop. *)
Lemma image_loop_unchecked lines :
  FLAGS_check_size flags = false ->
  forall line_id st,
    exists st', snd (image_loop' lines line_id st) = Returned st'.
Proof.
  intros C. induction lines as [|v lines IH]; intros line_id st;
    cbn [image_loop]; [eexists; reflexivity|].
  rewrite snd_bind.
  destruct (image_body_case ReadImagesToDatum flags line_id v st)
    as [d R | d sz R S | d o R S N]; cbn [snd]; try apply IH.
  exfalso. unfold size_check in S. rewrite C in S.
  injection S as <-. eapply N. reflexivity.
Qed.

(** *** What is in the label store *)

Lemma read_lines_outcome input :
  forall line_no lines,
    (exists result, snd (@read_lines double float stod input line_no lines)
                    = Returned result) \/
    (exists what, snd (@read_lines double float stod input line_no lines)
                  = Thrown what).
Proof.
  induction input as [|line rest IH]; intros; cbn [read_lines].
  - left. eexists. reflexivity.
  - destruct (negb _); [right; eexists; reflexivity|].
    destruct (stod _); [apply IH | right; eexists; reflexivity].
Qed.

Lemma label_store_when_reached lines0 :
  (argc argv <? 3) = false ->
  snd parsed = Returned lines0 ->
  reaches_labels argv (final' lines0) = true ->
  store_ops db1 (fst main') = batched (label_puts' 0 (final' lines0)) /\
  puts db1 (fst main') = label_puts' 0 (final' lines0) /\
  staged (store_after db1 (fst main')) = [] /\
  concat (committed (store_after db1 (fst main'))) = label_puts' 0 (final' lines0).
Proof.
  intros A P R.
  assert (O : store_ops db1 (fst main') = batched (label_puts' 0 (final' lines0)))
    by (rewrite store_ops_main, A, P, convert_ops_db1, R; reflexivity).
  destruct (replay_batched (label_puts' 0 (final' lines0))) as [S1 S2].
  unfold store_after, puts. rewrite O, ops_puts_batched. auto.
Qed.

(** X8: a run that returned 0 has put the label message of every record of
    the final order into the label store, and all of them are committed;
    without [shuffle] that is one message per line of the manifest, in the
    order of the lines, the message of line [i] (from 0) under the key made
    of [i] and the line's two paths. *)
Theorem label_store_holds_every_record :
  snd main' = Returned 0 ->
  exists lines0,
    snd parsed = Returned lines0 /\
    map Some lines0 = map (record_of stod) (infile fs (nth_error argv 1)) /\
    puts db1 (fst main') = label_puts' 0 (final' lines0) /\
    concat (committed (store_after db1 (fst main'))) = puts db1 (fst main') /\
    (FLAGS_shuffle flags = false ->
     map fst (puts db1 (fst main')) = keys_from 0 lines0 /\
     length (puts db1 (fst main'))
     = length (infile fs (nth_error argv 1))).
Proof.
  intros H. pose proof H as H'. rewrite snd_main in H.
  destruct (argc argv <? 3) eqn:A; [discriminate|].
  destruct (snd parsed) as [lines0 | | | ] eqn:P; try discriminate.
  rewrite snd_convert in H.
  destruct (reaches_images argv _) eqn:R; [|discriminate].
  assert (RL : reaches_labels argv (final' lines0) = true)
    by (unfold reaches_images in R; apply andb_true_iff in R; tauto).
  destruct (label_store_when_reached lines0 A P RL) as [_ [Pu [_ Co]]].
  destruct (read_lines_returned stod _ _ _ _ P) as [records [E1 E2]].
  cbn [app] in E1. subst records.
  exists lines0. rewrite Pu, Co.
  split; [reflexivity|]. split; [exact E2|].
  split; [reflexivity|]. split; [reflexivity|].
  intros S. unfold final_order. rewrite S.
  split; [apply label_puts_keys|].
  rewrite label_puts_length, <- (length_map Some), E2, length_map.
  reflexivity.
Qed.

(** X9: a run that ends in the failed size CHECK, the one whose message is
    [Incorrect data field size] and a number, has [check_size] on, and its
    label store is complete: every record of the final order has its label
    message there, committed. *)
Theorem failed_check_leaves_labels_complete (n : Z) :
  snd main' = CheckFailed (lit "Incorrect data field size " ++ print_int n) ->
  FLAGS_check_size flags = true /\
  exists lines0,
    snd parsed = Returned lines0 /\
    puts db1 (fst main') = label_puts' 0 (final' lines0) /\
    staged (store_after db1 (fst main')) = [] /\
    concat (committed (store_after db1 (fst main')))
    = label_puts' 0 (final' lines0).
Proof.
  intros H. rewrite snd_main in H.
  destruct (argc argv <? 3) eqn:A; [discriminate|].
  destruct (read_lines_outcome (infile fs (nth_error argv 1)) 0 [])
    as [[lines0 P] | [what P]]; rewrite P in H; [|discriminate].
  rewrite snd_convert in H.
  destruct (reaches_images argv _) eqn:R; [|discriminate].
  assert (RL : reaches_labels argv (final' lines0) = true)
    by (unfold reaches_images in R; apply andb_true_iff in R; tauto).
  split.
  - destruct (FLAGS_check_size flags) eqn:C; [reflexivity|].
    destruct (image_loop_unchecked (final' lines0) C 0 initial_locals)
      as [st E].
    rewrite E in H. discriminate H.
  - exists lines0. split; [exact P|].
    apply (label_store_when_reached lines0 A P RL).
Qed.

(** *** Every record is put or passed over *)

Lemma skips_app (tr1 tr2 : list (Event float)) :
  skips (tr1 ++ tr2) = (skips tr1 + skips tr2)%nat.
Proof.
  induction tr1 as [|e tr1 IH]; [reflexivity|].
  destruct e as [ | | | [|] | | | | | ]; cbn [app skips]; rewrite IH; reflexivity.
Qed.

Lemma skips_commit_batch (d : DbVar) (n : Z) :
  skips (fst (@commit_batch float d n)) = O.
Proof. rewrite commit_batch_eq. cbn [fst]. destruct (_ =? 0); reflexivity. Qed.

Lemma skips_commit_last (d : DbVar) (n : Z) :
  skips (fst (@commit_last float d n)) = O.
Proof. rewrite commit_last_eq. cbn [fst]. destruct (_ =? 0); reflexivity. Qed.

Lemma skips_label_loop lines :
  forall line_id n, skips (fst (label_loop' lines line_id n)) = O.
Proof.
  induction lines as [|v lines IH]; intros; cbn [label_loop]; [reflexivity|].
  rewrite fst_bind, label_body_eq. cbn [fst snd app skips].
  rewrite skips_app, skips_commit_batch, IH. reflexivity.
Qed.

Lemma image_loop_put_or_skip lines :
  forall line_id st st',
    snd (image_loop' lines line_id st) = Returned st' ->
    (length (puts db (fst (image_loop' lines line_id st)))
     + skips (fst (image_loop' lines line_id st)))%nat = length lines.
Proof.
  induction lines as [|v lines IH]; intros line_id st st'; cbn [image_loop];
    [reflexivity|].
  rewrite snd_bind, fst_bind.
  destruct (image_body_case ReadImagesToDatum flags line_id v st)
    as [d R | d sz R S | d o R S N]; cbn [fst snd].
  - intros H. apply IH in H.
    change (Log ERROR ?t :: ?l) with ([@Log float ERROR t] ++ l).
    rewrite puts_app, skips_app. cbn [length skips puts store_ops ops_puts app].
    lia.
  - intros H. apply IH in H.
    change (Put db ?k ?x :: ?l) with ([@Put float db k x] ++ l).
    rewrite <- app_assoc, !puts_app, !skips_app, puts_commit_batch,
      skips_commit_batch.
    cbn [length skips puts store_ops ops_puts app DbVar_eqb]. lia.
  - destruct o as [sz | | | ]; [exfalso; exact (N sz eq_refl) | | | ];
      discriminate.
Qed.

Lemma skips_convert lines :
  skips (fst (convert' lines)) =
  if reaches_images argv lines
  then skips (fst (image_loop' lines 0 initial_locals)) else O.
Proof.
  assert (Pre : forall n, skips (@preamble float flags n) = O)
    by (intros n; unfold preamble; destruct (_ && _); reflexivity).
  rewrite convert_eq. unfold reaches_images, reaches_labels.
  destruct (nth_error argv 3); cbv zeta; [|apply Pre].
  destruct (INT_MAX <? _); cbn [fst negb andb];
    [rewrite skips_app, Pre; reflexivity|].
  destruct (nth_error argv 2); cbn [fst];
    rewrite !skips_app, Pre, skips_label_loop, skips_commit_last;
    cbn [skips]; [|reflexivity].
  destruct (snd (image_loop' lines 0 initial_locals));
    rewrite ?skips_commit_last; cbn [skips]; lia.
Qed.

(** X10: in a run that returned 0 every record went one of two ways in the
    second loop: its image message was put into the image store, or the
    record was passed over with an error line in the log; the two counts add
    up to the number of label messages. *)
Theorem every_record_is_put_or_skipped :
  snd main' = Returned 0 ->
  (length (puts db (fst main')) + skips (fst main'))%nat
  = length (puts db1 (fst main')).
Proof.
  intros H. rewrite snd_main in H.
  destruct (argc argv <? 3) eqn:A3; [discriminate|].
  destruct (snd parsed) as [lines0 | | | ] eqn:P; try discriminate.
  rewrite snd_convert in H.
  destruct (reaches_images argv _) eqn:R; [|discriminate].
  destruct (snd (image_loop' (final' lines0) 0 initial_locals))
    as [st | | | ] eqn:I; try discriminate.
  assert (RL : reaches_labels argv (final' lines0) = true)
    by (unfold reaches_images in R; apply andb_true_iff in R; tauto).
  rewrite main_puts_db, main_puts_db1, A3, P. cbv zeta. rewrite R, RL.
  rewrite label_puts_length.
  rewrite main_eq, A3, P. cbv zeta. cbn [fst].
  change (Ifstream ?a :: ?l) with ([@Ifstream float a] ++ l).
  rewrite !skips_app, skips_convert, R.
  destruct (FLAGS_shuffle flags); cbn [skips];
    rewrite <- (image_loop_put_or_skip _ _ _ _ I); lia.
Qed.

(** *** The image store in record order *)

Lemma image_loop_sorted lines :
  forall line_id st,
    StronglySorted Z.lt
      (map (fun kv => label (snd kv))
           (puts db (fst (image_loop' lines line_id st)))).
Proof.
  induction lines as [|v lines IH]; intros line_id st; cbn [image_loop];
    [constructor|].
  rewrite fst_bind.
  destruct (image_body_case ReadImagesToDatum flags line_id v st)
    as [d R | d sz R S | d o R S N]; cbn [fst snd].
  - change (Log ERROR ?t :: ?l) with ([@Log float ERROR t] ++ l).
    rewrite puts_app. apply IH.
  - change (Put db ?k ?x :: ?l) with ([@Put float db k x] ++ l).
    rewrite <- app_assoc, !puts_app, puts_commit_batch.
    cbn [puts store_ops ops_puts app DbVar_eqb map snd label set_param set_label].
    constructor; [apply IH|].
    apply Forall_forall. intros l Hl. apply in_map_iff in Hl.
    destruct Hl as [[k x] [<- Hk]]. cbn [snd].
    apply in_puts_iff in Hk.
    apply (image_loop_puts ReadImagesToDatum flags) in Hk.
    destruct Hk as [i [w [_ [_ [L _]]]]]. lia.
  - destruct o as [sz | | | ]; [exfalso; exact (N sz eq_refl) | | | ];
      constructor.
Qed.

(** X11: the image store receives its messages in the order of the
    records: the record indices the messages carry grow strictly from put to
    put, in every run. *)
Theorem image_store_in_record_order :
  StronglySorted Z.lt
    (map (fun kv => label (snd kv)) (puts db (fst main'))).
Proof.
  rewrite main_puts_db. destruct (argc argv <? 3); [constructor|].
  destruct (snd parsed); try constructor.
  cbv zeta. destruct (reaches_images argv _); [|constructor].
  apply image_loop_sorted.
Qed.

(** *** Messages carry their key *)

(** X12: every message [main] puts into either store carries, in its
    [param] field, the key it is put under, and, in its [label] field, an
    index of a record: a number from 0 up to, not including, the number of
    label messages. *)
Theorem messages_carry_their_key (d : DbVar) (key : str) (value : Datum float) :
  In (Put d key value) (fst main') ->
  param value = key /\
  0 <= label value < Z.of_nat (length (puts db1 (fst main'))).
Proof.
  intros H.
  assert (B : exists lines0 i v,
             (argc argv <? 3) = false /\
             snd parsed = Returned lines0 /\
             reaches_labels argv (final' lines0) = true /\
             nth_error (final' lines0) i = Some v /\
             param value = key /\ label value = Z.of_nat i).
  { apply in_puts_iff in H. destruct d.
    - rewrite main_puts_db1 in H.
      destruct (argc argv <? 3) eqn:A; [destruct H|].
      destruct (snd parsed) as [lines0 | | | ] eqn:P; try (destruct H; fail).
      cbv zeta in H. destruct (reaches_labels argv _) eqn:R; [|destruct H].
      rewrite in_label_puts in H. destruct H as [i [v [N [K V]]]].
      rewrite Z.add_0_l in K, V.
      exists lines0, i, v. subst value key. repeat split; auto.
    - rewrite main_puts_db in H.
      destruct (argc argv <? 3) eqn:A; [destruct H|].
      destruct (snd parsed) as [lines0 | | | ] eqn:P; try (destruct H; fail).
      cbv zeta in H. destruct (reaches_images argv _) eqn:R; [|destruct H].
      apply in_puts_iff in H.
      apply (image_loop_puts ReadImagesToDatum flags) in H.
      destruct H as [i [v [N [K [L Pm]]]]]. rewrite Z.add_0_l in L.
      exists lines0, i, v. unfold reaches_images in R.
      apply andb_true_iff in R. destruct R as [R _]. repeat split; auto. }
  destruct B as [lines0 [i [v [A [P [R [N [Pm L]]]]]]]].
  split; [exact Pm|]. rewrite L, main_puts_db1, A, P. cbv zeta.
  rewrite R, label_puts_length.
  assert (i < length (final' lines0))%nat by (apply nth_error_Some; congruence).
  lia.
Qed.

(** *** Batches, however the run ends *)

Lemma main_ops_in_batches (d : DbVar) :
  exists kvs closing,
    store_ops d (fst main') = in_batches 0 kvs ++ closing /\
    (closing = [] \/
     closing = [OpCommit] /\ Z.of_nat (length kvs) mod 1000 <> 0).
Proof.
  rewrite store_ops_main.
  assert (Nothing : exists kvs closing,
             @nil (@Op float) = in_batches 0 kvs ++ closing /\
             (closing = [] \/
              closing = [OpCommit] /\ Z.of_nat (length kvs) mod 1000 <> 0))
    by (exists [], []; auto).
  destruct (argc argv <? 3); [exact Nothing|].
  destruct (snd parsed) as [lines0 | | | ]; try exact Nothing.
  destruct d.
  - rewrite convert_ops_db1.
    destruct (reaches_labels argv _); [|exact Nothing].
    unfold batched. eexists _, _. split; [reflexivity|].
    destruct (_ =? 0) eqn:E; [left; reflexivity|].
    right. apply Z.eqb_neq in E. auto.
  - rewrite convert_ops_db.
    destruct (reaches_images argv _); [|exact Nothing].
    cbv zeta. rewrite image_loop_ops by (cbn; lia).
    cbn [count initial_locals].
    eexists _, _. split; [reflexivity|].
    destruct (snd (image_loop' _ 0 initial_locals)) as [st | | | ] eqn:I;
      auto.
    apply image_loop_count in I. cbn [count initial_locals] in I.
    rewrite I, Z.add_0_l.
    destruct (_ =? 0) eqn:E; [left; reflexivity|].
    right. apply Z.eqb_neq in E. auto.
Qed.

(** X13: however a run ends, every batch that was committed to a store
    holds at least one and at most 1000 puts: [main] never commits an empty
    transaction, and what was put is either in a committed batch or still
    staged, in the order of the puts. *)
Theorem committed_batches_are_full_or_last (d : DbVar) :
  let s := store_after d (fst main') in
  Forall (fun batch => (1 <= length batch <= 1000)%nat) (committed s) /\
  concat (committed s) ++ staged s = puts d (fst main').
Proof.
  cbv zeta. unfold store_after, puts.
  destruct (main_ops_in_batches d) as [kvs [closing [E C]]]. rewrite E.
  rewrite replay_app, ops_puts_app, in_batches_puts.
  destruct (replay_in_batches kvs 0 empty_store) as [Co [L F]];
    [lia | reflexivity | constructor |].
  cbn [empty_store committed staged concat app] in Co.
  rewrite Z.add_0_l in L.
  assert (F' : Forall (fun batch => (1 <= length batch <= 1000)%nat)
                      (committed (replay (in_batches 0 kvs) empty_store))).
  { eapply Forall_impl; [|exact F]. cbv beta. intros b Hb. lia. }
  destruct C as [-> | [-> M]]; cbn [replay fold_left ops_puts].
  - rewrite app_nil_r. auto.
  - cbn [store_apply committed staged]. split.
    + apply Forall_app. split; [exact F'|]. constructor; [|constructor].
      pose proof (Z.mod_pos_bound (Z.of_nat (length kvs)) 1000 ltac:(lia)).
      lia.
    + rewrite concat_app. cbn [concat]. rewrite !app_nil_r. exact Co.
Qed.

(** *** One store after the other *)

Lemma stores_of_app (tr1 tr2 : list (Event float)) :
  stores_of (tr1 ++ tr2) = stores_of tr1 ++ stores_of tr2.
Proof.
  induction tr1 as [|e tr1 IH]; [reflexivity|].
  destruct e; cbn [app stores_of]; rewrite IH; reflexivity.
Qed.

Lemma stores_of_loop (d : DbVar) (tr : list (Event float)) :
  Forall (loop_event d) tr -> exists k, stores_of tr = repeat d k.
Proof.
  induction 1 as [|e tr He _ [k IH]]; [exists O; reflexivity|].
  destruct e; cbn [loop_event] in He; try contradiction; cbn [stores_of];
    try (subst d0; exists (S k); rewrite IH; reflexivity).
  exists k. exact IH.
Qed.

(** X14: the two stores are written one after the other: in every run all
    calls on the label store and its transactions come before all calls on
    the image store and its transactions. *)
Theorem label_calls_precede_image_calls :
  exists n m, stores_of (fst main') = repeat db1 n ++ repeat db m.
Proof.
  assert (CL : forall d n, exists k,
               stores_of (fst (@commit_last float d n)) = repeat d k).
  { intros d n. rewrite commit_last_eq. cbn [fst].
    destruct (_ =? 0); [exists O | exists 1%nat]; reflexivity. }
  assert (Pre : forall n, stores_of (@preamble float flags n) = repeat db1 1).
  { intros n. unfold preamble. destruct (_ && _); reflexivity. }
  rewrite main_eq. destruct (argc argv <? 3); [exists O, O; reflexivity|].
  destruct (snd parsed) as [lines0 | | | ]; cbn [fst];
    try (exists O, O; reflexivity).
  change (Ifstream ?a :: ?l) with ([@Ifstream float a] ++ l).
  rewrite !stores_of_app.
  replace (stores_of (if FLAGS_shuffle flags
                      then [@Log float INFO (lit "Shuffling data")] else []))
    with (@nil DbVar) by (destruct (FLAGS_shuffle flags); reflexivity).
  cbn [stores_of app]. rewrite convert_eq.
  destruct (nth_error argv 3) as [a3|]; cbv zeta;
    [|exists 1%nat, O; cbn [fst]; rewrite Pre; reflexivity].
  destruct (INT_MAX <? _); cbn [fst].
  { exists 3%nat, O. rewrite stores_of_app, Pre. reflexivity. }
  destruct (stores_of_loop db1 _
              (label_loop_events to_float float_zero (final' lines0) 0 0))
    as [k1 L1].
  destruct (CL db1 (Z.of_nat (length (final' lines0)))) as [c1 C1].
  destruct (nth_error argv 2) as [a2|]; cbn [fst];
    rewrite !stores_of_app, Pre, L1, C1; cbn [stores_of].
  - destruct (stores_of_loop db _
                (image_loop_events ReadImagesToDatum flags (final' lines0) 0
                   initial_locals)) as [k2 L2].
    rewrite L2.
    assert (T : exists c2,
               stores_of (match snd (image_loop' (final' lines0) 0 initial_locals)
                          with
                          | Returned st => fst (@commit_last float db (count st))
                          | _ => []
                          end) = repeat db c2).
    { destruct (snd (image_loop' _ 0 initial_locals)) as [st | | | ];
        [apply CL | exists O | exists O | exists O]; reflexivity. }
    destruct T as [c2 ->].
    exists (1 + 2 + k1 + c1)%nat, (1 + 2 + k2 + c2)%nat.
    rewrite !repeat_app. cbn [repeat app]. rewrite <- !app_assoc.
    cbn [app]. reflexivity.
  - exists (1 + 2 + k1 + c1)%nat, 1%nat.
    rewrite !repeat_app. cbn [repeat app]. rewrite <- !app_assoc.
    cbn [app]. reflexivity.
Qed.

(** *** Replaced transactions *)

Lemma resets_sound (d : DbVar) (tr : list (Event float)) :
  forall (clean : bool) (s : @Store float),
    resets_clean d clean tr = true ->
    (clean = true -> staged s = []) ->
    fold_left (event_apply d) tr s = replay (store_ops d tr) s.
Proof.
  induction tr as [|e tr IH]; intros clean s C S; [reflexivity|].
  destruct e; cbn [resets_clean] in C; cbn [fold_left event_apply store_ops];
    try (apply (IH clean); assumption).
  - apply andb_true_iff in C. destruct C as [C1 C2].
    destruct (DbVar_eqb d d0).
    + specialize (S C1). destruct s as [st co]. cbn [staged committed] in *.
      subst st. apply (IH clean); [exact C2 | intros _; reflexivity].
    + apply (IH clean); assumption.
  - destruct (DbVar_eqb d d0).
    + cbn [replay fold_left store_apply]. apply (IH false); [exact C|].
      discriminate.
    + apply (IH clean); assumption.
  - destruct (DbVar_eqb d d0).
    + cbn [replay fold_left store_apply]. apply (IH true); [exact C|].
      reflexivity.
    + apply (IH clean); assumption.
Qed.

Lemma resets_clean_app_safe (d : DbVar) (b : list (Event float)) :
  (forall c, resets_clean d c b = true) ->
  forall a c, resets_clean d c a = true -> resets_clean d c (a ++ b) = true.
Proof.
  intros Sb. induction a as [|e a IH]; intros c C; [apply Sb|].
  destruct e; cbn [app resets_clean] in *; try (apply IH; exact C).
  apply andb_true_iff in C. destruct C as [C1 C2].
  rewrite C1. apply IH. exact C2.
Qed.

Lemma resets_clean_other (d d' : DbVar) (a : list (Event float)) :
  Forall (loop_event d') a -> d <> d' ->
  forall c b, resets_clean d c (a ++ b) = resets_clean d c b.
Proof.
  intros F N. induction F as [|e a He _ IH]; intros c b; [reflexivity|].
  destruct e; cbn [loop_event] in He; try contradiction;
    cbn [app resets_clean]; try apply IH;
    subst d0; destruct d, d'; try contradiction; cbn [DbVar_eqb andb];
    apply IH.
Qed.

Lemma resets_commit_batch (d d' : DbVar) (n : Z) (c : bool) :
  resets_clean d c (fst (@commit_batch float d' n)) = true.
Proof.
  rewrite commit_batch_eq. cbn [fst].
  destruct (_ =? 0); [|reflexivity]. destruct d, d', c; reflexivity.
Qed.

Lemma resets_commit_last (d d' : DbVar) (n : Z) (c : bool) :
  resets_clean d c (fst (@commit_last float d' n)) = true.
Proof.
  rewrite commit_last_eq. cbn [fst].
  destruct (_ =? 0); [reflexivity|]. destruct d, d', c; reflexivity.
Qed.

Lemma resets_label_loop (d : DbVar) lines :
  forall line_id n c, resets_clean d c (fst (label_loop' lines line_id n)) = true.
Proof.
  induction lines as [|v lines IH]; intros; cbn [label_loop]; [reflexivity|].
  rewrite fst_bind, label_body_eq. cbn [fst snd app resets_clean].
  apply resets_clean_app_safe; [intros c'; apply IH|].
  apply resets_commit_batch.
Qed.

Lemma resets_image_loop (d : DbVar) lines :
  forall line_id st c,
    resets_clean d c (fst (image_loop' lines line_id st)) = true.
Proof.
  induction lines as [|v lines IH]; intros; cbn [image_loop]; [reflexivity|].
  rewrite fst_bind.
  destruct (image_body_case ReadImagesToDatum flags line_id v st)
    as [dt R | dt sz R S | dt o R S N]; cbn [fst snd app resets_clean].
  - apply IH.
  - apply resets_clean_app_safe; [intros c'; apply IH|].
    apply resets_commit_batch.
  - destruct o as [sz | | | ]; [exfalso; exact (N sz eq_refl) | | | ];
      reflexivity.
Qed.

Lemma resets_clean_main (d : DbVar) : resets_clean d true (fst main') = true.
Proof.
  rewrite main_eq. destruct (argc argv <? 3); [reflexivity|].
  destruct (snd parsed) as [lines0 | | | ]; cbn [fst]; try reflexivity.
  rewrite convert_eq. unfold preamble.
  assert (Img : forall c,
             resets_clean d c
               (fst (image_loop' (final' lines0) 0 initial_locals)
                ++ match snd (image_loop' (final' lines0) 0 initial_locals) with
                   | Returned st => fst (@commit_last float db (count st))
                   | _ => []
                   end) = true).
  { intros c. apply resets_clean_app_safe; [|apply resets_image_loop].
    intros c'. destruct (snd _); try reflexivity. apply resets_commit_last. }
  destruct (FLAGS_shuffle flags), (negb _ && negb _),
    (nth_error argv 3) as [a3|]; cbv zeta; cbn [fst app resets_clean];
    try reflexivity;
    destruct (INT_MAX <? _); cbn [fst app resets_clean];
    try (destruct d; reflexivity);
    destruct (nth_error argv 2) as [a2|]; cbn [fst];
    rewrite <- ?app_assoc; cbn [app resets_clean].
  all: destruct d; cbn [DbVar_eqb andb].
  all: try (apply resets_clean_app_safe; [|apply resets_label_loop];
            intros c; apply resets_clean_app_safe;
            [|apply resets_commit_last];
            intros c'; cbn [resets_clean DbVar_eqb andb];
            first [apply Img | reflexivity]).
  all: rewrite (resets_clean_other db db1)
      by (apply label_loop_events || discriminate).
  all: rewrite commit_last_eq; cbn [fst]; destruct (_ =? 0);
    cbn [app resets_clean DbVar_eqb andb]; first [apply Img | reflexivity].
Qed.

(** X15: [main] replaces a transaction only when no put is staged in it
    (right after the store was opened or the transaction was committed), so
    no put is lost to a replaced transaction: a store that drops the staged
    puts of a replaced transaction ends up, in every run, with the same
    content as one that keeps them. *)
Theorem replaced_transactions_are_empty (d : DbVar) :
  resets_clean d true (fst main') = true /\
  store_with_resets d (fst main') = store_after d (fst main').
Proof.
  split; [apply resets_clean_main|].
  unfold store_with_resets, store_after.
  apply (resets_sound d _ true); [apply resets_clean_main | reflexivity].
Qed.

(** *** Sizes in the image store *)

Lemma size_check_passed st (dt : Datum float) sz :
  FLAGS_check_size flags = true ->
  data_size_initialized st = true ->
  size_check (FLAGS_check_size flags) st dt = ([], Returned sz) ->
  Z.of_nat (length (data dt)) = data_size st mod 2 ^ 64.
Proof.
  intros C I. unfold size_check. rewrite C, I. cbn [negb].
  destruct (_ =? _) eqn:E; [|discriminate]. intros _.
  apply Z.eqb_eq. exact E.
Qed.

Lemma image_loop_sizes_set lines :
  FLAGS_check_size flags = true ->
  forall line_id st,
    data_size_initialized st = true ->
    Forall (fun kv => Z.of_nat (length (data (snd kv)))
                      = data_size st mod 2 ^ 64)
           (puts db (fst (image_loop' lines line_id st))).
Proof.
  intros C. induction lines as [|v lines IH]; intros line_id st I;
    cbn [image_loop]; [constructor|].
  rewrite fst_bind.
  destruct (image_body_case ReadImagesToDatum flags line_id v st)
    as [dt R | dt sz R S | dt o R S N]; cbn [fst snd].
  - change (Log ERROR ?t :: ?l) with ([@Log float ERROR t] ++ l).
    rewrite puts_app. apply (IH _ (mkLocals _ _ _ _)). exact I.
  - change (Put db ?k ?x :: ?l) with ([@Put float db k x] ++ l).
    rewrite <- app_assoc, !puts_app, puts_commit_batch.
    cbn [puts store_ops ops_puts app DbVar_eqb].
    pose proof (size_check_passed _ _ _ C I S) as P.
    rewrite (size_check_initialized _ _ _ _ I S). cbn [fst snd].
    constructor; [exact P|].
    apply (IH _ (mkLocals _ _ _ _)). reflexivity.
  - destruct o as [sz | | | ]; [exfalso; exact (N sz eq_refl) | | | ];
      constructor.
Qed.

Lemma image_loop_sizes_unset lines :
  FLAGS_check_size flags = true ->
  forall line_id st key0 value0 rest,
    data_size_initialized st = false ->
    puts db (fst (image_loop' lines line_id st)) = (key0, value0) :: rest ->
    Forall (fun kv => Z.of_nat (length (data (snd kv)))
                      = (channels value0 * height value0 * width value0)
                        mod 2 ^ 64) rest /\
    INT_MIN <= channels value0 * height value0 * width value0 <= INT_MAX.
Proof.
  intros C. induction lines as [|v lines IH];
    intros line_id st key0 value0 rest I; cbn [image_loop]; [discriminate|].
  rewrite fst_bind.
  destruct (image_body_case ReadImagesToDatum flags line_id v st)
    as [dt R | dt sz R S | dt o R S N]; cbn [fst snd].
  - change (Log ERROR ?t :: ?l) with ([@Log float ERROR t] ++ l).
    rewrite puts_app. apply (IH _ (mkLocals _ _ _ _)). exact I.
  - change (Put db ?k ?x :: ?l) with ([@Put float db k x] ++ l).
    rewrite <- app_assoc, !puts_app, puts_commit_batch.
    cbn [puts store_ops ops_puts app DbVar_eqb].
    destruct (size_check_first _ _ _ _ C I S) as [-> Rg]. cbn [fst snd].
    intros [= <- <- <-]. split; [|exact Rg].
    apply (image_loop_sizes_set lines C _ (mkLocals _ _ _ _)). reflexivity.
  - destruct o as [sz | | | ]; [exfalso; exact (N sz eq_refl) | | | ];
      discriminate.
Qed.

(** X16: with [check_size] on, the first message in the image store fixes
    the size of all the others: where its channels x height and
    channels x height x width are products an [int] holds, each later
    message has as many data bytes as that product (an [int], compared as a
    [size_t]).  The data of the first message itself is not compared with
    anything. *)
Theorem check_size_makes_sizes_equal key0 value0 rest :
  FLAGS_check_size flags = true ->
  puts db (fst main') = (key0, value0) :: rest ->
  INT_MIN <= channels value0 * height value0 <= INT_MAX ->
  INT_MIN <= channels value0 * height value0 * width value0 <= INT_MAX ->
  Forall (fun kv => Z.of_nat (length (data (snd kv)))
                    = (channels value0 * height value0 * width value0)
                      mod 2 ^ 64) rest.
Proof.
  intros C H _ _. revert H. rewrite main_puts_db.
  destruct (argc argv <? 3); [discriminate|].
  destruct (snd parsed) as [lines0 | | | ]; try discriminate.
  cbv zeta. destruct (reaches_images argv _); [|discriminate].
  intros H.
  apply (image_loop_sizes_unset _ C 0 initial_locals key0 value0 rest eq_refl H).
Qed.

(** *** A manifest without lines *)

(** X17: a manifest that cannot be opened is treated like an empty one: the
    parse gives no record and raises nothing, a run with at least two
    positional arguments goes on to report a total of 0 images, and nothing
    is put into or committed to either store. *)
Theorem no_manifest_gives_empty_stores (path : str) :
  3 <= argc argv ->
  nth_error argv 1 = Some path ->
  fs path = None \/ fs path = Some [] ->
  final' [] = [] ->
  parsed = ([], Returned []) /\
  In (Log INFO (lit "A total of 0 images.")) (fst main') /\
  (forall d, store_ops d (fst main') = []) /\
  (forall d, staged (store_after d (fst main')) = [] /\
             committed (store_after d (fst main')) = []).
Proof.
  intros A Hp Hfs Hfin. apply Z.ltb_ge in A.
  assert (I : infile fs (nth_error argv 1) = [])
    by (rewrite Hp; cbn [infile]; destruct Hfs as [-> | ->]; reflexivity).
  assert (P : parsed = ([], Returned [])) by (rewrite I; reflexivity).
  assert (O : forall d, store_ops d (fst main') = []).
  { intros d. rewrite store_ops_main, A, P. cbn [snd]. rewrite Hfin.
    destruct d; [rewrite convert_ops_db1 | rewrite convert_ops_db].
    - destruct (reaches_labels argv _); reflexivity.
    - destruct (reaches_images argv _); reflexivity. }
  split; [exact P|]. split; [|split; [exact O|]].
  - rewrite main_eq, A, P. cbn [snd]. cbv zeta. rewrite Hfin, convert_eq.
    right. apply in_or_app. right.
    destruct (nth_error argv 3) as [a3|]; cbv zeta;
      [destruct (INT_MAX <? _); [|destruct (nth_error argv 2)]|];
      cbn [fst]; unfold preamble; left; reflexivity.
  - intros d. unfold store_after. rewrite O. split; reflexivity.
Qed.

End MoreMainFacts.

(** ** More runs in the concrete world *)

(** X5, witness: the third token of the second line is not a number. *)
Lemma unparsable_manifest_is_fatal_witness :
  exists what,
    Demo.run default_flags (Demo.manifest [lit "a b 1"; lit "c d x"]) Demo.args
    = ([Ifstream (Some Demo.manifest_path)], Thrown what) /\
    (what = syntax_error 0 \/ what = lit "stod").
Proof.
  apply (unparsable_manifest_is_fatal Demo.stod (fun x => x) 0 (@rev _)
           Demo.ReadImagesToDatum
           (Demo.fs (Demo.manifest [lit "a b 1"; lit "c d x"]))
           default_flags Demo.args Demo.manifest_path
           (Demo.manifest [lit "a b 1"; lit "c d x"])).
  - vm_compute. discriminate.
  - reflexivity.
  - vm_compute. reflexivity.
  - apply Exists_exists. exists (lit "c d x").
    split; [vm_compute; find_in|].
    intros [_ H]. apply H. vm_compute. reflexivity.
Defined.


(** X8, witness: the label store after a run over three records. *)
Lemma label_store_holds_every_record_witness :
  exists lines0,
    snd (@read_lines Z Z Demo.stod (getlines Demo.three_records) 0 [])
    = Returned lines0 /\
    map fst (puts db1 (fst (Demo.run default_flags Demo.three_records Demo.args)))
    = keys_from 0 lines0 /\
    length (puts db1 (fst (Demo.run default_flags Demo.three_records Demo.args)))
    = length (getlines Demo.three_records).
Proof.
  destruct (label_store_holds_every_record Demo.stod (fun x => x) 0 (@rev _)
              Demo.ReadImagesToDatum (Demo.fs Demo.three_records)
              default_flags Demo.args)
    as [lines0 [P [_ [_ [_ S]]]]].
  - vm_compute. reflexivity.
  - exists lines0. destruct (S eq_refl) as [K L]. auto.
Defined.

(** X9, witness: the run that stops at an image of another size. *)
Lemma failed_check_leaves_labels_complete_witness :
  FLAGS_check_size Demo.check_size_flags = true /\
  length (concat (committed (store_after db1
            (fst (Demo.run Demo.check_size_flags Demo.sizes_differ Demo.args)))))
  = 4%nat.
Proof.
  destruct (failed_check_leaves_labels_complete Demo.stod (fun x => x) 0
              (@rev _) Demo.ReadImagesToDatum (Demo.fs Demo.sizes_differ)
              Demo.check_size_flags Demo.args 3)
    as [C [lines0 [P [_ [_ Co]]]]].
  - vm_compute. reflexivity.
  - split; [exact C|]. unfold Demo.run. rewrite Co, label_puts_length.
    vm_compute in P. injection P as <-. reflexivity.
Defined.

(** X10, witness: two images put, one record passed over, three labels. *)
Lemma every_record_is_put_or_skipped_witness :
  (length (puts db (fst (Demo.run default_flags Demo.three_records Demo.args)))
   + skips (fst (Demo.run default_flags Demo.three_records Demo.args)))%nat
  = length (puts db1 (fst (Demo.run default_flags Demo.three_records Demo.args))).
Proof.
  apply (every_record_is_put_or_skipped Demo.stod (fun x => x) 0 (@rev _)
           Demo.ReadImagesToDatum (Demo.fs Demo.three_records)
           default_flags Demo.args).
  vm_compute. reflexivity.
Defined.

(** X12, witness: the image message of the second record. *)
Lemma messages_carry_their_key_witness :
  lit "00000001_cc_d" = lit "00000001_cc_d" /\
  0 <= 1 < Z.of_nat (length (puts db1
             (fst (Demo.run default_flags Demo.three_records Demo.args)))).
Proof.
  apply (messages_carry_their_key Demo.stod (fun x => x) 0 (@rev _)
           Demo.ReadImagesToDatum (Demo.fs Demo.three_records)
           default_flags Demo.args db (lit "00000001_cc_d")
           (mkDatum 1 1 2 (lit "d") 1 [] false (lit "00000001_cc_d"))).
  vm_compute. find_in.
Defined.

(** X16, witness: the two images that were put before the run stopped. *)
Lemma check_size_makes_sizes_equal_witness :
  Forall (fun kv : str * Datum Z =>
            Z.of_nat (length (data (snd kv))) = (1 * 1 * 2) mod 2 ^ 64)
         [(lit "00000002_de_fg",
           mkDatum 1 1 2 (lit "fg") 2 [] false (lit "00000002_de_fg"))].
Proof.
  apply (check_size_makes_sizes_equal Demo.stod (fun x => x) 0 (@rev _)
           Demo.ReadImagesToDatum (Demo.fs Demo.sizes_differ)
           Demo.check_size_flags Demo.args
           (lit "00000001_ab_c")
           (mkDatum 1 1 2 (lit "c") 1 [] false (lit "00000001_ab_c"))).
  - reflexivity.
  - vm_compute. reflexivity.
  - vm_compute. split; discriminate.
  - vm_compute. split; discriminate.
Defined.

(** X17, witness: the manifest named on the command line does not exist. *)
Lemma no_manifest_gives_empty_stores_witness :
  In (Log INFO (lit "A total of 0 images."))
     (fst (Demo.run default_flags Demo.three_records Demo.missing_args)) /\
  forall d,
    store_ops d (fst (Demo.run default_flags Demo.three_records
                        Demo.missing_args)) = [].
Proof.
  destruct (no_manifest_gives_empty_stores Demo.stod (fun x => x) 0 (@rev _)
              Demo.ReadImagesToDatum (Demo.fs Demo.three_records)
              default_flags Demo.missing_args (lit "nofile.txt"))
    as [_ [L [O _]]].
  - vm_compute. discriminate.
  - reflexivity.
  - left. reflexivity.
  - reflexivity.
  - split; [exact L | exact O].
Defined.
